(** * Pre-trained image classification notebook: model and properties

    A shallow embedding of the four operations of
    [mxnet/intro/Pre-trained models.ipynb] (Python 2.7):
    [loadModel], [loadCategories], [prepareNDArray] and [predict].

    The notebook is glue code over MXNet, OpenCV, NumPy and the Python
    runtime.  Those libraries are not part of the repository: their
    functions appear below either as concrete definitions, where their
    documented behaviour is simple enough to write down ([str.rstrip],
    file iteration, [np.swapaxes], [np.squeeze], slicing, list indexing,
    [cv2.cvtColor] with [COLOR_BGR2RGB]), or as fields of a [Library]
    record that the operations are parameterised by ([load_checkpoint],
    the [Module] methods, [cv2.imread], the interpolation of
    [cv2.resize], [np.argsort]). *)

From stdpp Require Import base tactics option list strings gmap sorting.
From Stdlib Require Import ZArith Ascii.

Set Default Proof Using "Type".

(** ** Python strings (byte strings in Python 2) *)

Definition newline : ascii := "010"%char.

(** [isspace] in the C locale, as used by [str.rstrip()] without
    argument: space, [\t], [\n], [\v], [\f], [\r]. *)
Definition py_isspace (c : ascii) : bool :=
  let n := nat_of_ascii c in
  (n =? 32) || ((9 <=? n) && (n <=? 13)).

(** [s.rstrip()]: the prefix of [s] left once the maximal run of
    whitespace at its right end is dropped. *)
Fixpoint rstrip (s : string) : string :=
  match s with
  | EmptyString => EmptyString
  | String c s' =>
      match rstrip s' with
      | EmptyString => if py_isspace c then EmptyString else String c EmptyString
      | r => String c r
      end
  end.

(** Iterating over a file opened with mode ['r'] yields its lines: each
    ends after a ['\n'], which it keeps; a last line without terminator
    is yielded as it is. *)
Fixpoint readlines (s : string) : list string :=
  match s with
  | EmptyString => []
  | String c s' =>
      if Ascii.eqb c newline then String c EmptyString :: readlines s'
      else match readlines s' with
           | [] => [String c EmptyString]
           | l :: ls => String c l :: ls
           end
  end.

(** The number of lines of a text, in the words of [wc]: one per
    newline character, plus one for a non-empty unterminated tail. *)
Fixpoint count_newlines (s : string) : nat :=
  match s with
  | EmptyString => 0
  | String c s' => (if Ascii.eqb c newline then 1 else 0) + count_newlines s'
  end.

Fixpoint last_char (s : string) : option ascii :=
  match s with
  | EmptyString => None
  | String c EmptyString => Some c
  | String _ s' => last_char s'
  end.

Definition unterminated (s : string) : bool :=
  match last_char s with
  | None => false
  | Some c => negb (Ascii.eqb c newline)
  end.

Definition line_count (s : string) : nat :=
  count_newlines s + (if unterminated s then 1 else 0).

Fixpoint all_space (s : string) : bool :=
  match s with
  | EmptyString => true
  | String c s' => py_isspace c && all_space s'
  end.

Definition ends_with_space (s : string) : bool :=
  match last_char s with
  | None => false
  | Some c => py_isspace c
  end.

Fixpoint join (ls : list string) : string :=
  match ls with
  | [] => EmptyString
  | l :: ls' => String.app l (join ls')
  end.

(** ** Exceptions, results and the world *)

(** A raised Python exception: its class and its message. *)
Inductive exn : Type := PyErr (cls msg : string).

Definition IndexError : exn := PyErr "IndexError" "index out of range".
Definition cv2_error : exn := PyErr "cv2.error" "assertion failed".
Definition AxisError : exn := PyErr "AxisError" "axis out of bounds".

Inductive result (A : Type) : Type :=
| Ok (a : A)
| Raise (e : exn).
Arguments Ok {A} a.
Arguments Raise {A} e.

(** Compute contexts of MXNet. *)
Inductive context : Type :=
| cpu (device_id : Z)
| gpu (device_id : Z).

(** N-dimensional arrays (NumPy [ndarray], MXNet [NDArray]): a shape
    and the element stored at each index vector. *)
Record ndarray (A : Type) : Type := NDArray {
  shape : list nat;
  at_index : list nat → A
}.
Arguments NDArray {A} shape at_index.
Arguments shape {A} _.
Arguments at_index {A} _ _.

(** The calls into the libraries and the Python runtime that can raise,
    or that act on the outside world. *)
Inductive call : Type :=
| CLoadCheckpoint (prefix : string) (epoch : Z)
| CModule (ctx : option context)
| CBind (for_training : bool) (data_shapes : list (string * list nat))
| CSetParams
| COpen (name mode : string)
| CImread (filename : string)
| CCvtColor
| CResize (width height : nat)
| CSwapaxes (axis1 axis2 : nat)
| CPrint
| CTime
| CForward
| CGetOutputs
| CGetItem (container : string) (i : nat).

Record event : Type := Event {
  ev_call : call;
  ev_raised : option exn
}.

Definition outcome {A} (r : result A) : option exn :=
  match r with
  | Ok _ => None
  | Raise e => Some e
  end.



Definition loc := nat.

Definition upd {A} (h : loc → A) (l : loc) (a : A) : loc → A :=
  fun l' => if Nat.eqb l' l then a else h l'.

(** ** Python and NumPy containers *)

(** [l[i]] for a non-negative index. *)
Definition list_getitem {A} (l : list A) (i : nat) : result A :=
  match l !! i with
  | Some a => Ok a
  | None => Raise IndexError
  end.

(** [l[0:n]]: a negative stop counts from the end, and the stop is
    clipped to the bounds of the list. *)
Definition slice_to {A} (l : list A) (n : Z) : list A :=
  let len := Z.of_nat (length l) in
  let stop := if (n <? 0)%Z then Z.max 0 (len + n) else Z.min n len in
  take (Z.to_nat stop) l.

(** The list with the entries at positions [i] and [j] exchanged. *)
Definition swap {A} (i j : nat) (l : list A) : list A :=
  match l !! i, l !! j with
  | Some x, Some y => <[i:=y]> (<[j:=x]> l)
  | _, _ => l
  end.

(** [np.swapaxes(a, i, j)]. *)
Definition np_swapaxes {A} (a : ndarray A) (i j : nat) : result (ndarray A) :=
  if (i <? length (shape a)) && (j <? length (shape a))
  then Ok (NDArray (swap i j (shape a)) (fun idx => at_index a (swap i j idx)))
  else Raise AxisError.

(** [a[np.newaxis, :]]. *)
Definition np_newaxis {A} (a : ndarray A) : ndarray A :=
  NDArray (1 :: shape a) (fun idx => at_index a (tail idx)).

(** The index into the unsqueezed array: a [0] at every axis of
    length one. *)
Fixpoint expand_index (sh idx : list nat) : list nat :=
  match sh with
  | [] => []
  | d :: sh' =>
      if d =? 1 then 0 :: expand_index sh' idx
      else match idx with
           | i :: idx' => i :: expand_index sh' idx'
           | [] => 0 :: expand_index sh' []
           end
  end.

(** [np.squeeze(a)]: every axis of length one is removed. *)
Definition np_squeeze {A} (a : ndarray A) : ndarray A :=
  NDArray (filter (fun d => d ≠ 1) (shape a))
          (fun idx => at_index a (expand_index (shape a) idx)).

Definition TypeError : exn :=
  PyErr "TypeError" "only integer scalar arrays can be converted to a scalar index".

(** [prob[i]] with the scalar that is then used to index the list of
    categories.  On a vector it is the element at [i]; a 0-dimensional
    array cannot be indexed.  For an array of two or more axes the
    indices that [np.argsort] yields are rows, which this model of
    indices as numbers does not hold: there NumPy selects rows with
    [prob[i]] and it is the next step, [categories[i]], that raises the
    [TypeError] for an index that is not a scalar.  The model raises it
    one step early; nothing below is stated about such arrays. *)
Definition nd_getitem {A} (a : ndarray A) (i : nat) : result A :=
  match shape a with
  | [] => Raise IndexError
  | [k] => if i <? k then Ok (at_index a [i]) else Raise IndexError
  | _ => Raise TypeError
  end.

(** [cv2.cvtColor(img, cv2.COLOR_BGR2RGB)]: a 3-channel image with the
    first and third channel of the source exchanged.  [cv2.imread]
    returns [None] for a file it cannot decode, which [cvtColor]
    rejects, as it does an empty image. *)
Definition cv2_cvtColor_BGR2RGB (img : option (ndarray Z)) : result (ndarray Z) :=
  match img with
  | None => Raise cv2_error
  | Some a =>
      match shape a with
      | [h; w; ch] =>
          if (0 <? h) && (0 <? w) && ((ch =? 3) || (ch =? 4))
          then Ok (NDArray [h; w; 3]
                     (fun idx => match idx with
                                 | [y; x; c] => at_index a [y; x; 2 - c]
                                 | _ => at_index a idx
                                 end))
          else Raise cv2_error
      | _ => Raise cv2_error
      end
  end.

(** ** The libraries *)

(** A parameter dictionary, from names to arrays. *)
Abbreviation params F := (gmap string (ndarray F)).

Section Definitions.

(** [F]: the float32 values held by MXNet arrays; [symbol]: network
    descriptions; [Module]: the state of an [mx.mod.Module] object. *)
Context {F symbol Module : Type}.

Record Library : Type := {
  mx_model_load_checkpoint : string → Z → result (symbol * params F * params F);
  (** [None]: the [context] argument left out. *)
  mx_mod_Module : symbol → option context → result Module;
  Module_bind : Module → bool → list (string * list nat) → result Module;
  (** [set_params] copies the arrays into the module and leaves the
      two dictionaries as they are. *)
  Module_set_params : Module → params F → params F → result Module;
  Module_forward : Module → list (ndarray F) → result Module;
  Module_get_outputs : Module → result (list (ndarray F));
  (** [open(name, mode)]: a file object, here its contents. *)
  py_open : string → string → result string;
  cv2_imread : string → option (ndarray Z);
  (** The value [cv2.resize] interpolates at an index of its result. *)
  cv2_interpolate : ndarray Z → nat → nat → list nat → Z;
  np_argsort : ndarray F → list nat;
  (** The float32 an integer converts to. *)
  float32 : Z → F
}.

Variable lib : Library.

(** [cv2.resize(img, (width, height))]. *)
Definition cv2_resize (a : ndarray Z) (width height : nat) : result (ndarray Z) :=
  match shape a with
  | h :: w :: rest =>
      if (0 <? h) && (0 <? w) && (0 <? width) && (0 <? height)
      then Ok (NDArray (height :: width :: rest) (cv2_interpolate lib a width height))
      else Raise cv2_error
  | _ => Raise cv2_error
  end.

(** [mx.nd.array(a)]: an [NDArray] of float32 with the shape of [a]. *)
Definition mx_nd_array (a : ndarray Z) : ndarray F :=
  NDArray (shape a) (fun idx => float32 lib (at_index a idx)).

(** [mx.nd.array([0])] *)
Definition mx_nd_array_0 : ndarray F :=
  NDArray [1] (fun _ => float32 lib 0%Z).

(** ** The world and the monad of operations *)

(** The log of calls made so far, and the heap of the mutable objects:
    dictionaries and modules, each behind a location. *)
Record world : Type := World {
  calls : list event;
  dicts : loc → params F;
  next_dict : loc;
  mods : loc → Module;
  next_mod : loc
}.

Definition M (A : Type) : Type := world → result A * world.

Definition ret {A} (a : A) : M A := fun w => (Ok a, w).

Definition bind {A B} (m : M A) (k : A → M B) : M B :=
  fun w =>
    match m w with
    | (Ok a, w') => k a w'
    | (Raise e, w') => (Raise e, w')
    end.

Definition log (ev : event) (w : world) : world :=
  World (calls w ++ [ev]) (dicts w) (next_dict w) (mods w) (next_mod w).

(** A call with outcome [r]: it is logged, and its value or its
    exception is the outcome of the computation. *)
Definition lib_call {A} (c : call) (r : result A) : M A :=
  fun w => (r, log (Event c (outcome r)) w).

(** The two statements of Python that the notebook never uses. *)
Definition py_raise {A} (e : exn) : M A := fun w => (Raise e, w).

Definition try_except {A} (m : M A) (handler : exn → M A) : M A :=
  fun w =>
    match m w with
    | (Ok a, w') => (Ok a, w')
    | (Raise e, w') => handler e w'
    end.

Definition alloc_dict (d : params F) : M loc :=
  fun w => (Ok (next_dict w),
            World (calls w) (upd (dicts w) (next_dict w) d) (S (next_dict w))
                  (mods w) (next_mod w)).

Definition read_dict (l : loc) : M (params F) :=
  fun w => (Ok (dicts w l), w).

(** [d[key] = value] *)
Definition dict_setitem (l : loc) (key : string) (value : ndarray F) : M unit :=
  fun w => (Ok tt,
            World (calls w) (upd (dicts w) l (<[key:=value]> (dicts w l))) (next_dict w)
                  (mods w) (next_mod w)).

Definition alloc_mod (m : Module) : M loc :=
  fun w => (Ok (next_mod w),
            World (calls w) (dicts w) (next_dict w)
                  (upd (mods w) (next_mod w) m) (S (next_mod w))).

Definition read_mod (l : loc) : M Module :=
  fun w => (Ok (mods w l), w).

Definition write_mod (l : loc) (m : Module) : M unit :=
  fun w => (Ok tt,
            World (calls w) (dicts w) (next_dict w) (upd (mods w) l m) (next_mod w)).

Global Instance M_ret : MRet M := @ret.
Global Instance M_bind : MBind M := fun A B k m => bind m k.

(** A method of a module that updates the object: [mod.method(...)]. *)
Definition method_call (c : call) (method : Module → result Module) (l : loc) : M unit :=
  m ← read_mod l;
  m' ← lib_call c (method m);
  write_mod l m'.

(** A method of a module that returns a value. *)
Definition method_get {A} (c : call) (method : Module → result A) (l : loc) : M A :=
  m ← read_mod l;
  lib_call c (method m).

(** [for x in l: body], threading the variables the body assigns. *)
Fixpoint for_each {A S} (l : list A) (body : A → S → M S) (s : S) : M S :=
  match l with
  | [] => ret s
  | x :: l' => s' ← body x s; for_each l' body s'
  end.

(** ** The operations of the notebook *)

(** [mx.mod.Module(symbol=sym, context=ctx)], or without [context]. *)
Definition new_Module (sym : symbol) (ctx : option context) : M loc :=
  m ← lib_call (CModule ctx) (mx_mod_Module lib sym ctx);
  alloc_mod m.

(** [mx.model.load_checkpoint(prefix, epoch)]: the symbol and two fresh
    dictionaries. *)
Definition load_checkpoint (prefix : string) (epoch : Z) : M (symbol * loc * loc) :=
  '(sym, arg, aux) ← lib_call (CLoadCheckpoint prefix epoch)
                       (mx_model_load_checkpoint lib prefix epoch);
  arg_params ← alloc_dict arg;
  aux_params ← alloc_dict aux;
  ret (sym, arg_params, aux_params).

Definition data_shapes : list (string * list nat) := [("data", [1; 3; 224; 224])].

Definition loadModel (modelname : string) (gpu_flag : bool) : M loc :=
  '(sym, arg_params, aux_params) ← load_checkpoint modelname 0;
  dict_setitem arg_params "prob_label" mx_nd_array_0;;
  dict_setitem arg_params "softmax_label" mx_nd_array_0;;
  mod_ ← (if gpu_flag
         then new_Module sym (Some (gpu 0))
         else new_Module sym None);
  method_call (CBind false data_shapes)
    (fun m => Module_bind lib m false data_shapes) mod_;;
  arg ← read_dict arg_params;
  aux ← read_dict aux_params;
  method_call CSetParams (fun m => Module_set_params lib m arg aux) mod_;;
  ret mod_.

Definition loadCategories : M (list string) :=
  synsetfile ← lib_call (COpen "synset.txt" "r") (py_open lib "synset.txt" "r");
  let synsets := [] in
  let synsets :=
    fold_left (fun synsets l => synsets ++ [rstrip l]) (readlines synsetfile) synsets in
  ret synsets.

Definition prepareNDArray (filename : string) : M (ndarray F) :=
  img ← lib_call (CImread filename) (Ok (cv2_imread lib filename));
  img ← lib_call CCvtColor (cv2_cvtColor_BGR2RGB img);
  img ← lib_call (CResize 224 224) (cv2_resize img 224 224);
  img ← lib_call (CSwapaxes 0 2) (np_swapaxes img 0 2);
  img ← lib_call (CSwapaxes 1 2) (np_swapaxes img 1 2);
  let img := np_newaxis img in
  let array := mx_nd_array img in
  lib_call CPrint (Ok tt);;
  ret array.

(** Lines 210 to 217: the forward pass and the vector it yields.
    [Batch([array])] is the list [[array]]; [asnumpy()] copies the
    first output into a NumPy array of the same shape and values. *)
Definition forward_pass (filename : string) (model : loc) : M (ndarray F) :=
  array ← prepareNDArray filename;
  lib_call CTime (Ok tt);;
  method_call CForward (fun m => Module_forward lib m [array]) model;;
  outputs ← method_get CGetOutputs (Module_get_outputs lib) model;
  prob ← lib_call (CGetItem "outputs" 0) (list_getitem outputs 0);
  lib_call CTime (Ok tt);;
  lib_call CPrint (Ok tt);;
  let prob := np_squeeze prob in
  ret prob.

(** Lines 218 to 223: the selection of the top [n]. *)
Definition top_n (prob : ndarray F) (categories : list string) (n : Z)
  : M (list (F * string)) :=
  let sortedprobindex := reverse (np_argsort lib prob) in
  let topn := [] in
  for_each (slice_to sortedprobindex n)
    (fun i topn =>
       p ← lib_call (CGetItem "prob" i) (nd_getitem prob i);
       c ← lib_call (CGetItem "categories" i) (list_getitem categories i);
       ret (topn ++ [(p, c)]))
    topn.

Definition predict (filename : string) (model : loc) (categories : list string) (n : Z)
  : M (list (F * string)) :=
  prob ← forward_pass filename model;
  top_n prob categories n.

Definition init (modelname : string) (gpu_flag : bool) : M (loc * list string) :=
  model ← loadModel modelname gpu_flag;
  categories ← loadCategories;
  ret (model, categories).

End Definitions.

(** ** Vocabulary of the properties *)

Section Properties.

Context {F symbol Module : Type}.
Abbreviation Library := (@Library F symbol Module).
Abbreviation world := (@world F Module).
Abbreviation M := (@M F Module).

(** The calls logged between two worlds. *)
Definition new_calls (w w' : world) : list event :=
  drop (length (calls w)) (calls w').

Definition succeeded (ev : event) : Prop := ev_raised ev = None.

(** An operation without error handling of its own: it raises [e]
    exactly when a call it made raised [e], and a call that raised is
    the last one it made. *)
Definition propagates {A} (m : M A) : Prop :=
  ∀ w : world,
    calls (m w).2 = calls w ++ new_calls w (m w).2 ∧
    (∀ e, (m w).1 = Raise e ↔ ∃ c, Event c (Some e) ∈ new_calls w (m w).2) ∧
    (∀ evs ev evs', new_calls w (m w).2 = evs ++ ev :: evs' →
                    ¬ succeeded ev → evs' = []).

(** [emits m Q]: a run of [m] only appends calls to the log, and its
    outcome and the calls it appends are related by [Q]. *)
Definition emits {A} (m : M A) (Q : result A → list event → Prop) : Prop :=
  ∀ w : world, ∃ evs, calls (m w).2 = calls w ++ evs ∧ Q (m w).1 evs.

(** Families of such relations that are kept by sequencing. *)
Record closed (P : ∀ A, result A → list event → Prop) : Prop := {
  closed_nil : ∀ A (a : A), P A (Ok a) [];
  closed_raise : ∀ A B e evs, P A (Raise e) evs → P B (Raise e) evs;
  closed_seq : ∀ A B (a : A) (r : result B) evs1 evs2,
      P A (Ok a) evs1 → P B r evs2 → P B r (evs1 ++ evs2)
}.

(** All calls succeeded, or all but the last did and the exception of
    the last is the outcome. *)
Definition raised_last (A : Type) (r : result A) (evs : list event) : Prop :=
  match r with
  | Ok _ => Forall succeeded evs
  | Raise e => ∃ evs0 c, evs = evs0 ++ [Event c (Some e)] ∧ Forall succeeded evs0
  end.


(** The contract of [np.argsort] on a vector: a permutation of its
    indices, along which the values ascend. *)
Definition argsort_permutes (lib : Library) : Prop :=
  ∀ a k, shape a = [k] → np_argsort lib a ≡ₚ seq 0 k.

Definition argsort_ascends (le : relation F) (lib : Library) : Prop :=
  ∀ a k, shape a = [k] →
    StronglySorted (fun i j => le (at_index a [i]) (at_index a [j])) (np_argsort lib a).

(** The pair that [predict] makes from index [i]: the probability and
    the label at that index. *)
Definition paired (prob : ndarray F) (categories : list string)
    (i : nat) (pc : F * string) : Prop :=
  pc.1 = at_index prob [i] ∧ categories !! i = Some pc.2.

(** The context a module is created in, by the flag of [loadModel]. *)
Definition flag_context (gpu_flag : bool) : option context :=
  if gpu_flag then Some (gpu 0) else None.

(** The loading steps in the words of the specification: load the
    checkpoint by name, create the module on the selected device, bind
    it and give it the parameters. *)
Definition load_on (lib : Library) (modelname : string) (ctx : option context) : M loc :=
  '(sym, arg_params, aux_params) ← load_checkpoint lib modelname 0;
  dict_setitem arg_params "prob_label" (mx_nd_array_0 lib);;
  dict_setitem arg_params "softmax_label" (mx_nd_array_0 lib);;
  mod_ ← new_Module lib sym ctx;
  method_call (CBind false data_shapes)
    (fun m => Module_bind lib m false data_shapes) mod_;;
  arg ← read_dict arg_params;
  aux ← read_dict aux_params;
  method_call CSetParams (fun m => Module_set_params lib m arg aux) mod_;;
  mret mod_.

(** The steps of a run of [loadModel], in order; a run that raises
    stops after the step that raised. *)
Definition loading_steps (modelname : string) (ctx : option context) : list call :=
  [CLoadCheckpoint modelname 0; CModule ctx; CBind false data_shapes; CSetParams].

End Properties.

(** ** A small instance of the libraries

    Values are integers, a module is the list of its current outputs,
    and [argsort] is a merge sort of the indices. *)

Definition demo_image : ndarray Z :=
  NDArray [2; 2; 3]
    (fun idx => match idx with
                | [y; x; c] => Z.of_nat (100 * y + 10 * x + c)
                | _ => 0%Z
                end).

Definition demo_scores : ndarray Z :=
  NDArray [1; 3]
    (fun idx => match idx with
                | [0; 0] => 10%Z
                | [0; 1] => 70%Z
                | [0; 2] => 20%Z
                | _ => 0%Z
                end).

Definition demo_scalar : ndarray Z := NDArray [1; 1] (fun _ => 100%Z).

Definition score_le (a : ndarray Z) : relation nat :=
  fun i j => (at_index a [i] ≤ at_index a [j])%Z.

Global Instance score_le_dec (a : ndarray Z) : RelDecision (score_le a) :=
  fun i j => Z_le_dec (at_index a [i]) (at_index a [j]).

Definition demo_argsort (a : ndarray Z) : list nat :=
  match shape a with
  | [k] => merge_sort (score_le a) (seq 0 k)
  | _ => []
  end.

Definition demo_interpolate (a : ndarray Z) (width height : nat) (idx : list nat) : Z :=
  match shape a, idx with
  | h :: w :: _, y :: x :: rest => at_index a ((y * h) `div` height :: (x * w) `div` width :: rest)
  | _, _ => 0%Z
  end.

Definition demo_weights : gmap string (ndarray Z) :=
  {[ "fc8_bias" := NDArray [3] (fun _ => 1%Z) ]}.

Definition demo_lib (synset : string) (outputs : list (ndarray Z))
  : @Library Z unit (list (ndarray Z)) :=
  {| mx_model_load_checkpoint prefix epoch :=
       if decide (prefix = "vgg16" ∧ epoch = 0%Z)
       then Ok (tt, demo_weights, ∅)
       else Raise (PyErr "MXNetError" "cannot open the checkpoint");
     mx_mod_Module _ _ := Ok [];
     Module_bind m _ _ := Ok m;
     Module_set_params m _ _ := Ok m;
     Module_forward _ _ := Ok outputs;
     Module_get_outputs m := Ok m;
     py_open name _ :=
       if decide (name = "synset.txt") then Ok synset
       else Raise (PyErr "IOError" "No such file or directory");
     cv2_imread name :=
       if decide (name = "violin.jpg") then Some demo_image else None;
     cv2_interpolate := demo_interpolate;
     np_argsort := demo_argsort;
     float32 z := z |}.

Definition demo_world : @world Z (list (ndarray Z)) :=
  World [] (fun _ => ∅) 0 (fun _ => []) 0.

Definition demo_synset : string := "cat
dog
fox".


(** ** The cell that lists the layers of a model

    [params = vgg16.get_params()] is the pair of the parameter
    dictionaries of the module; the cell collects the keys of the first
    one, in the order [keys()] lists them, and sorts them in place.
    Strings of Python 2 compare byte by byte, as [String.le] does, and
    a sorted list of strings is unique, so that the sorting algorithm
    does not show in the result. *)
Definition layer_names (keys : list string) : list string :=
  let layers := [] in
  let layers := fold_left (fun layers layer => layers ++ [layer]) keys layers in
  merge_sort String.le layers.

(** A label file in the format that [loadCategories] reads: one label
    per line, each line ended by a newline. *)
Definition write_labels (labels : list string) : string :=
  join ((fun label => String.app label (String newline EmptyString)) <$> labels).

(** Two worlds with the same heap: they differ in the log at most. *)
Definition same_heap {F Module} (w w' : @world F Module) : Prop :=
  dicts w' = dicts w ∧ next_dict w' = next_dict w ∧
  mods w' = mods w ∧ next_mod w' = next_mod w.

(** The lines of a text, in the words of the label file's format:
    the text is cut after each newline; every line is a text without
    newline followed by one newline, and what follows the last newline,
    when it is not empty, is a last line without newline. *)
Inductive lines_of : string → list string → Prop :=
| lines_of_empty : lines_of EmptyString []
| lines_of_tail (l : string) :
    l ≠ EmptyString → count_newlines l = 0 → lines_of l [l]
| lines_of_line (l rest : string) (ls : list string) :
    count_newlines l = 0 → lines_of rest ls →
    lines_of (String.app l (String newline rest))
             (String.app l (String newline EmptyString) :: ls).

(** The module that the library makes on a context, in the words of
    the specification: created from the symbol on the context, bound
    for inference to one image of (1, 3, 224, 224), and given the
    parameters. *)
Definition module_on {F symbol Module} (lib : @Library F symbol Module)
    (sym : symbol) (ctx : option context) (arg aux : params F) : result Module :=
  match mx_mod_Module lib sym ctx with
  | Ok m0 =>
      match Module_bind lib m0 false [("data", [1; 3; 224; 224])] with
      | Ok m1 => Module_set_params lib m1 arg aux
      | Raise e => Raise e
      end
  | Raise e => Raise e
  end.

(** [np.argsort] of NumPy on an array without axes is [[0]]; on
    vectors, the merge sort above. *)
Definition scalar_argsort (a : ndarray Z) : list nat :=
  match shape a with
  | [] => [0]
  | _ => demo_argsort a
  end.

(** The libraries of a model with a single output value. *)
Definition scalar_lib : @Library Z unit (list (ndarray Z)) :=
  let lib := demo_lib demo_synset [demo_scalar] in
  {| mx_model_load_checkpoint := mx_model_load_checkpoint lib;
     mx_mod_Module := mx_mod_Module lib;
     Module_bind := Module_bind lib;
     Module_set_params := Module_set_params lib;
     Module_forward := Module_forward lib;
     Module_get_outputs := Module_get_outputs lib;
     py_open := py_open lib;
     cv2_imread := cv2_imread lib;
     cv2_interpolate := cv2_interpolate lib;
     np_argsort := scalar_argsort;
     float32 := float32 lib |}.

(** * Properties *)

(** ** Lines and trailing whitespace *)

Lemma string_app_nil s : String.app EmptyString s = s.
Proof. reflexivity. Qed.

Lemma string_app_cons c s t : String.app (String c s) t = String c (String.app s t).
Proof. reflexivity. Qed.

Lemma last_char_cons c s :
  last_char (String c s) = match s with EmptyString => Some c | _ => last_char s end.
Proof. by destruct s. Qed.

Lemma readlines_nil s : readlines s = [] → s = EmptyString.
Proof.
  destruct s as [|c s]; [done|]. simpl.
  destruct (Ascii.eqb c newline); [done|]. by destruct (readlines s).
Qed.

Lemma readlines_join s : join (readlines s) = s.
Proof.
  induction s as [|c s IH]; [done|]. simpl.
  destruct (Ascii.eqb c newline); simpl.
  - by rewrite IH.
  - destruct (readlines s) as [|l ls] eqn:E.
    + apply readlines_nil in E. by subst.
    + cbn [join] in *. by rewrite string_app_cons, IH.
Qed.

Lemma readlines_length s : length (readlines s) = line_count s.
Proof.
  unfold line_count, unterminated.
  induction s as [|c s IH]; [done|].
  rewrite last_char_cons. cbn [readlines count_newlines].
  destruct (Ascii.eqb c newline) eqn:Ec.
  - cbn [length]. rewrite IH. destruct s; simpl; [by rewrite Ec | lia].
  - destruct (readlines s) as [|l ls] eqn:E.
    + apply readlines_nil in E. subst. simpl. by rewrite Ec.
    + change (length (String c l :: ls)) with (length (l :: ls)).
      rewrite IH. destruct s; [done|]. simpl. lia.
Qed.

(** Every line but the last ends with the newline, its only one. *)
Lemma readlines_terminated s i l :
  readlines s !! i = Some l → S i < length (readlines s) →
  ∃ l', l = String.app l' (String newline EmptyString) ∧ count_newlines l' = 0.
Proof.
  revert i l. induction s as [|c s IH]; intros i l; [done|]. cbn [readlines].
  destruct (Ascii.eqb c newline) eqn:Ec.
  - destruct i as [|i]; simpl.
    + intros [= <-] _. apply Ascii.eqb_eq in Ec. subst. by exists EmptyString.
    + intros Hl Hlen. apply (IH i); [done | lia].
  - destruct (readlines s) as [|l0 ls] eqn:E.
    + destruct i; simpl; [lia | done].
    + destruct i as [|i]; simpl.
      * intros [= <-] Hlen.
        destruct (IH 0 l0 eq_refl) as (l' & -> & Hl'); [simpl; lia|].
        exists (String c l'). split; [done|]. simpl. by rewrite Ec.
      * intros Hl Hlen. apply (IH (S i) l); [done | by simpl].
Qed.

(** A line is not empty, and has no newline but a last one. *)
Lemma readlines_line s l :
  l ∈ readlines s →
  ∃ l', count_newlines l' = 0 ∧
        (l = String.app l' (String newline EmptyString) ∨ (l = l' ∧ l' ≠ EmptyString)).
Proof.
  revert l. induction s as [|c s IH]; intros l; cbn [readlines].
  - by intros ?%elem_of_nil.
  - destruct (Ascii.eqb c newline) eqn:Ec.
    + intros [->|Hl]%elem_of_cons; [|by apply IH].
      apply Ascii.eqb_eq in Ec as ->. exists EmptyString. split; [done | by left].
    + destruct (readlines s) as [|l0 ls].
      * intros ->%list_elem_of_singleton. exists (String c EmptyString).
        split; [simpl; by rewrite Ec | by right].
      * intros [->|Hl]%elem_of_cons.
        -- destruct (IH l0) as (l' & Hl' & Hcases); [apply list_elem_of_here|].
           exists (String c l'). split; [simpl; by rewrite Ec|].
           destruct Hcases as [->|[-> _]]; [by left | by right].
        -- apply IH. by apply list_elem_of_further.
Qed.

Lemma rstrip_split s : ∃ ws, s = String.app (rstrip s) ws ∧ all_space ws = true.
Proof.
  induction s as [|c s (ws & Hs & Hws)]; [by exists EmptyString|].
  cbn [rstrip]. destruct (rstrip s) as [|c' r].
  - rewrite string_app_nil in Hs. subst ws. destruct (py_isspace c) eqn:Ec.
    + exists (String c s). rewrite string_app_nil. split; [done|].
      simpl. by rewrite Ec, Hws.
    + exists s. by rewrite string_app_cons, string_app_nil.
  - exists ws. split; [|done]. by rewrite string_app_cons, <- Hs.
Qed.

Lemma rstrip_no_trailing_space s : ends_with_space (rstrip s) = false.
Proof.
  unfold ends_with_space. induction s as [|c s IH]; [done|].
  simpl. destruct (rstrip s) as [|c' r] eqn:E.
  - destruct (py_isspace c) eqn:Ec; simpl; [done | by rewrite Ec].
  - by rewrite last_char_cons.
Qed.

(** What [rstrip] removes is all of the trailing whitespace: a string
    that does not end with whitespace is left as it is. *)
Lemma rstrip_id s : ends_with_space s = false → rstrip s = s.
Proof.
  unfold ends_with_space. induction s as [|c s IH]; [done|].
  rewrite last_char_cons. simpl. destruct s as [|c' s'].
  - simpl. by intros ->.
  - intros H. rewrite (IH H). done.
Qed.

Lemma fold_left_append {A B} (f : A → B) (l : list A) (acc : list B) :
  fold_left (fun acc x => acc ++ [f x]) l acc = acc ++ (f <$> l).
Proof.
  revert acc. induction l as [|x l IH]; intros acc; simpl.
  - by rewrite app_nil_r.
  - by rewrite IH, <- app_assoc.
Qed.

Lemma readlines_app_line l rest :
  count_newlines l = 0 →
  readlines (String.app l (String newline rest)) =
  String.app l (String newline EmptyString) :: readlines rest.
Proof.
  induction l as [|c l IH]; [done|].
  rewrite !string_app_cons. cbn [count_newlines readlines].
  destruct (Ascii.eqb c newline); [done|]. intros Hl. by rewrite IH.
Qed.


(** ** loadCategories *)

Lemma loadCategories_run {F symbol Module}
    (lib : @Library F symbol Module) (w : world) :
  loadCategories lib w =
  (match py_open lib "synset.txt" "r" with
   | Ok contents => Ok (rstrip <$> readlines contents)
   | Raise e => Raise e
   end,
   log (Event (COpen "synset.txt" "r") (outcome (py_open lib "synset.txt" "r"))) w).
Proof.
  unfold loadCategories, mbind, M_bind, bind, lib_call.
  destruct (py_open lib "synset.txt" "r") as [contents|e]; [|done].
  by rewrite fold_left_append.
Qed.

Lemma readlines_tail l :
  l ≠ EmptyString → count_newlines l = 0 → readlines l = [l].
Proof.
  induction l as [|c l IH]; [done|]. intros _. cbn [count_newlines readlines].
  destruct (Ascii.eqb c newline); [done|]. intros Hl.
  destruct l as [|c' l']; [done|]. by rewrite IH.
Qed.

(** File iteration yields the lines of the text, and they are its only
    cut into lines. *)
Lemma readlines_lines_of s : lines_of s (readlines s).
Proof.
  induction s as [|c s IH]; [constructor|]. cbn [readlines].
  destruct (Ascii.eqb c newline) eqn:Ec.
  - apply Ascii.eqb_eq in Ec as ->.
    by apply (lines_of_line EmptyString s (readlines s)).
  - destruct (readlines s) as [|l0 ls] eqn:E.
    + apply readlines_nil in E as ->. apply lines_of_tail; [done|].
      simpl. by rewrite Ec.
    + inversion IH as [|l Hne Hl|l rest ls' Hl Hrest]; subst.
      * apply lines_of_tail; [done|]. simpl. by rewrite Ec.
      * apply (lines_of_line (String c l) rest ls); [|done]. simpl. by rewrite Ec.
Qed.

Lemma lines_of_readlines s ls : lines_of s ls → ls = readlines s.
Proof.
  induction 1 as [|l Hne Hl|l rest ls Hl _ IH]; [done | |].
  - by rewrite readlines_tail.
  - by rewrite readlines_app_line, IH.
Qed.

(** C3. [loadCategories] loads the label file into an ordered list: for
    every contents of [synset.txt], cut into its lines at the newlines
    (the only such cut), it returns one element per line, as many as
    the file has lines, and the element at each position is made from
    the line at that position: the line is that element followed by
    whitespace only. *)
Theorem loadCategories_one_label_per_line {F symbol Module}
    (lib : @Library F symbol Module) (w : world) contents :
  py_open lib "synset.txt" "r" = Ok contents →
  ∃ lines synsets,
    lines_of contents lines ∧
    (∀ lines', lines_of contents lines' → lines' = lines) ∧
    join lines = contents ∧
    length lines = line_count contents ∧
    (loadCategories lib w).1 = Ok synsets ∧
    length synsets = length lines ∧
    (∀ i line, lines !! i = Some line →
       ∃ label ws, synsets !! i = Some label ∧
                   line = String.app label ws ∧
                   all_space ws = true ∧
                   ends_with_space label = false).
Proof.
  intros Hopen. exists (readlines contents), (rstrip <$> readlines contents).
  rewrite loadCategories_run, Hopen. split_and!.
  - apply readlines_lines_of.
  - intros lines' Hlines'. by apply lines_of_readlines.
  - apply readlines_join.
  - apply readlines_length.
  - done.
  - by rewrite length_fmap.
  - intros i line Hline. destruct (rstrip_split line) as (ws & Hsplit & Hws).
    exists (rstrip line), ws. rewrite list_lookup_fmap, Hline.
    split_and!; [done | done | done | apply rstrip_no_trailing_space].
Qed.

Lemma loadCategories_one_label_per_line_witness :
  ∃ lines synsets,
    lines_of demo_synset lines ∧
    (∀ lines', lines_of demo_synset lines' → lines' = lines) ∧
    join lines = demo_synset ∧
    length lines = line_count demo_synset ∧
    (loadCategories (demo_lib demo_synset []) demo_world).1 = Ok synsets ∧
    length synsets = length lines ∧
    (∀ i line, lines !! i = Some line →
       ∃ label ws, synsets !! i = Some label ∧
                   line = String.app label ws ∧
                   all_space ws = true ∧
                   ends_with_space label = false).
Proof.
  apply (loadCategories_one_label_per_line (demo_lib demo_synset []) demo_world).
  reflexivity.
Defined.






(** ** loadModel *)

Lemma new_calls_app {F Module} (w w' : @world F Module) evs :
  calls w' = calls w ++ evs → new_calls w w' = evs.
Proof. unfold new_calls. intros ->. by rewrite drop_app_length. Qed.

(** Unfolds the monad so that a run becomes a [match] on the outcomes
    of the calls it makes. *)
Ltac unfold_monad :=
  repeat progress
    (unfold mbind, mret, M_bind, M_ret, bind, ret, lib_call, method_call, method_get,
       new_Module, load_checkpoint, alloc_dict, alloc_mod, read_dict, read_mod,
       write_mod, dict_setitem, log in *;
     cbn beta iota zeta delta
       [fst snd calls dicts next_dict mods next_mod outcome] in *).

Ltac is_call r :=
  lazymatch r with
  | mx_model_load_checkpoint _ _ _ => idtac
  | mx_mod_Module _ _ _ => idtac
  | Module_bind _ _ _ _ => idtac
  | Module_set_params _ _ _ _ => idtac
  | Module_forward _ _ _ => idtac
  | Module_get_outputs _ _ => idtac
  | py_open _ _ _ => idtac
  | cv2_cvtColor_BGR2RGB _ => idtac
  | cv2_resize _ _ _ _ => idtac
  | np_swapaxes _ _ _ => idtac
  | list_getitem _ _ => idtac
  | nd_getitem _ _ => idtac
  end.

(** Splits the run on the outcome of the next call. *)
Ltac step :=
  match goal with
  | |- context [match ?r with Ok a => @?f a | Raise e => @?g e end] =>
      is_call r; destruct r eqn:?; unfold_monad
  end.

Lemma upd_eq {A} (h : loc → A) l a : upd h l a l = a.
Proof. unfold upd. by rewrite Nat.eqb_refl. Qed.

Lemma upd_ne {A} (h : loc → A) l l' a : l' ≠ l → upd h l a l' = h l'.
Proof. unfold upd. intros H. by apply Nat.eqb_neq in H as ->. Qed.

Lemma loadModel_load_on {F symbol Module} (lib : @Library F symbol Module)
    modelname gpu_flag :
  loadModel lib modelname gpu_flag = load_on lib modelname (flag_context gpu_flag).
Proof. by destruct gpu_flag. Qed.

(** The dictionaries after a run of [loadModel] that got past
    [load_checkpoint], whatever happens later. *)
Lemma loadModel_dicts {F symbol Module} (lib : @Library F symbol Module)
    modelname gpu_flag (w : world) sym arg aux :
  mx_model_load_checkpoint lib modelname 0 = Ok (sym, arg, aux) →
  dicts (loadModel lib modelname gpu_flag w).2 =
  upd (upd (upd (upd (dicts w) (next_dict w) arg) (S (next_dict w)) aux)
         (next_dict w) (<["prob_label" := mx_nd_array_0 lib]> arg))
      (next_dict w)
      (<["softmax_label" := mx_nd_array_0 lib]>
         (<["prob_label" := mx_nd_array_0 lib]> arg)).
Proof.
  intros Hload. rewrite loadModel_load_on. unfold load_on. unfold_monad.
  rewrite Hload. unfold_monad.
  rewrite (upd_ne _ _ (next_dict w)) by lia. rewrite !upd_eq.
  repeat step; done.
Qed.

(** C5, as the code has it. [loadModel] writes two entries into the
    argument parameters that [load_checkpoint] loaded: [prob_label] and
    [softmax_label] are set to a one-element zero array (added, or
    overwritten). Every other entry is unchanged and none is removed;
    the auxiliary parameters and all other dictionaries are unchanged. *)
Theorem loadModel_weights {F symbol Module} (lib : @Library F symbol Module)
    modelname gpu_flag (w : world) sym arg aux :
  mx_model_load_checkpoint lib modelname 0 = Ok (sym, arg, aux) →
  let w' := (loadModel lib modelname gpu_flag w).2 in
  let arg_params := next_dict w in
  let aux_params := S (next_dict w) in
  dicts w' arg_params =
    <["softmax_label" := mx_nd_array_0 lib]> (<["prob_label" := mx_nd_array_0 lib]> arg) ∧
  (∀ key, key ≠ "prob_label" → key ≠ "softmax_label" →
          dicts w' arg_params !! key = arg !! key) ∧
  dom arg ⊆ dom (dicts w' arg_params) ∧
  dicts w' aux_params = aux ∧
  (∀ l, l < next_dict w → dicts w' l = dicts w l).
Proof.
  intros Hload w' arg_params aux_params. subst w' arg_params aux_params.
  rewrite (loadModel_dicts lib modelname gpu_flag w sym arg aux Hload).
  rewrite upd_eq. split_and!.
  - done.
  - intros key H1 H2. by rewrite !lookup_insert_ne.
  - rewrite !dom_insert. set_solver.
  - rewrite !upd_ne by lia. by rewrite upd_eq.
  - intros l Hl. by rewrite !upd_ne by lia.
Qed.

Lemma loadModel_weights_witness :
  let lib := demo_lib demo_synset [demo_scores] in
  let w' := (loadModel lib "vgg16" true demo_world).2 in
  dicts w' 0 =
    <["softmax_label" := mx_nd_array_0 lib]>
      (<["prob_label" := mx_nd_array_0 lib]> demo_weights) ∧
  (∀ key, key ≠ "prob_label" → key ≠ "softmax_label" →
          dicts w' 0 !! key = demo_weights !! key) ∧
  dom demo_weights ⊆ dom (dicts w' 0) ∧
  dicts w' 1 = ∅ ∧
  (∀ l, l < 0 → dicts w' l = dicts demo_world l).
Proof.
  apply (loadModel_weights (demo_lib demo_synset [demo_scores]) "vgg16" true demo_world
           tt demo_weights ∅).
  reflexivity.
Defined.

(** C5 as stated fails: the checkpoint below is loaded without a
    [prob_label] entry, and after [loadModel] has completed the
    dictionary that was loaded has one. *)
Lemma loadModel_weights_counterexample :
  let lib := demo_lib demo_synset [demo_scores] in
  mx_model_load_checkpoint lib "vgg16" 0 = Ok (tt, demo_weights, ∅) ∧
  (loadModel lib "vgg16" false demo_world).1 = Ok 0 ∧
  demo_weights !! "prob_label" = None ∧
  dicts (loadModel lib "vgg16" false demo_world).2 0 !! "prob_label"
    = Some (mx_nd_array_0 lib) ∧
  dicts (loadModel lib "vgg16" false demo_world).2 0 ≠ demo_weights.
Proof.
  intros lib.
  assert (Hload : mx_model_load_checkpoint lib "vgg16" 0 = Ok (tt, demo_weights, ∅))
    by reflexivity.
  assert (Hafter : dicts (loadModel lib "vgg16" false demo_world).2 0 !! "prob_label"
                   = Some (mx_nd_array_0 lib)).
  { rewrite (loadModel_dicts lib "vgg16" false demo_world tt demo_weights ∅ Hload).
    change (next_dict demo_world) with 0. rewrite upd_eq.
    rewrite lookup_insert_ne by done. by rewrite lookup_insert_eq. }
  split_and!; [done | reflexivity | reflexivity | done |].
  intros Heq. rewrite Heq in Hafter. discriminate Hafter.
Qed.

(** The outcome of [loadModel] once the checkpoint is loaded: that of
    making the module on the context handed to [mx.mod.Module]. *)
Lemma load_on_module {F symbol Module} (lib : @Library F symbol Module)
    modelname ctx (w : world) sym arg aux :
  mx_model_load_checkpoint lib modelname 0 = Ok (sym, arg, aux) →
  let labelled :=
    <["softmax_label" := mx_nd_array_0 lib]> (<["prob_label" := mx_nd_array_0 lib]> arg) in
  match module_on lib sym ctx labelled aux with
  | Ok m =>
      (load_on lib modelname ctx w).1 = Ok (next_mod w) ∧
      mods (load_on lib modelname ctx w).2 (next_mod w) = m
  | Raise e => (load_on lib modelname ctx w).1 = Raise e
  end.
Proof.
  intros Hload labelled. subst labelled. unfold load_on, module_on. unfold_monad.
  rewrite Hload. unfold_monad.
  destruct (mx_mod_Module lib sym ctx) as [m0|e]; unfold_monad; [|done].
  change data_shapes with [("data", [1; 3; 224; 224])].
  repeat (rewrite upd_eq || rewrite upd_ne by lia).
  destruct (Module_bind lib m0 false [("data", [1; 3; 224; 224])]) as [m1|e];
    unfold_monad; [|done].
  repeat (rewrite upd_eq || rewrite upd_ne by lia).
  destruct (Module_set_params lib m1 _ aux) as [m2|e]; unfold_monad; [|done].
  by rewrite upd_eq.
Qed.

(** C8. [loadModel] takes a model name and one flag. With the flag set
    or unset it loads the same checkpoint, epoch 0 of the named model,
    and when that fails it raises the same error. Otherwise its outcome
    is that of making the module from the symbol of the checkpoint and
    the loaded parameters with the two label entries, on GPU 0 when the
    flag is set and without a context, which leaves the default of
    [mx.mod.Module], when it is unset: the module it returns is this
    module, and an error of these steps is its error. The two runs are
    one sequence of steps that differ in this context only; they leave
    the dictionaries the same, and their calls are the loading steps in
    order, all four when the run completes and those up to the failing
    one when it raises. *)
Theorem loadModel_flag_selects_context {F symbol Module}
    (lib : @Library F symbol Module) modelname (gpu_flag : bool) (w : world) :
  match mx_model_load_checkpoint lib modelname 0 with
  | Raise e => (loadModel lib modelname gpu_flag w).1 = Raise e
  | Ok (sym, arg, aux) =>
      match
        module_on lib sym (if gpu_flag then Some (gpu 0) else None)
          (<["softmax_label" := mx_nd_array_0 lib]>
             (<["prob_label" := mx_nd_array_0 lib]> arg))
          aux
      with
      | Ok m =>
          (loadModel lib modelname gpu_flag w).1 = Ok (next_mod w) ∧
          mods (loadModel lib modelname gpu_flag w).2 (next_mod w) = m
      | Raise e => (loadModel lib modelname gpu_flag w).1 = Raise e
      end
  end ∧
  flag_context true = Some (gpu 0) ∧
  flag_context false = None ∧
  loadModel lib modelname gpu_flag = load_on lib modelname (flag_context gpu_flag) ∧
  dicts (loadModel lib modelname true w).2 = dicts (loadModel lib modelname false w).2 ∧
  match (loadModel lib modelname gpu_flag w).1 with
  | Ok _ =>
      ev_call <$> new_calls w (loadModel lib modelname gpu_flag w).2
      = loading_steps modelname (flag_context gpu_flag)
  | Raise _ =>
      ∃ k, k < 4 ∧
        ev_call <$> new_calls w (loadModel lib modelname gpu_flag w).2
        = take (S k) (loading_steps modelname (flag_context gpu_flag))
  end.
Proof.
  split_and!; [| done | done | apply loadModel_load_on | |].
  { destruct (mx_model_load_checkpoint lib modelname 0) as [[[sym arg] aux]|e] eqn:Hload.
    - rewrite loadModel_load_on.
      apply (load_on_module lib modelname (flag_context gpu_flag) w sym arg aux Hload).
    - rewrite loadModel_load_on. unfold load_on. unfold_monad. by rewrite Hload. }
  { destruct (mx_model_load_checkpoint lib modelname 0) as [[[sym arg] aux]|e] eqn:Hload.
    - by rewrite !(loadModel_dicts lib modelname _ w sym arg aux Hload).
    - rewrite !loadModel_load_on. unfold load_on. unfold_monad. by rewrite Hload. }
  rewrite loadModel_load_on. unfold load_on, new_calls. unfold_monad.
  step.
  - destruct a as [[sym arg] aux]. unfold_monad. step.
    + step.
      * step; rewrite <- !app_assoc, drop_app_length; [done|].
        exists 3. split; [lia | done].
      * rewrite <- !app_assoc, drop_app_length. exists 2. split; [lia | done].
    + rewrite <- !app_assoc, drop_app_length. exists 1. split; [lia | done].
  - rewrite drop_app_length. exists 0. split; [lia | done].
Qed.

(** ** Calls made by composite operations *)


Lemma emits_bind {F Module A B} (m : @M F Module A) (k : A → M B) Q1 Q2
    (Q : result B → list event → Prop) :
  emits m Q1 →
  (∀ a, emits (k a) (Q2 a)) →
  (∀ e evs, Q1 (Raise e) evs → Q (Raise e) evs) →
  (∀ a r evs1 evs2, Q1 (Ok a) evs1 → Q2 a r evs2 → Q r (evs1 ++ evs2)) →
  emits (m ≫= k) Q.
Proof.
  intros Hm Hk Hraise Hseq w. unfold mbind, M_bind, bind.
  destruct (Hm w) as (evs1 & Hc1 & HQ1).
  destruct (m w) as [[a|e] w1]; simpl in *.
  - destruct (Hk a w1) as (evs2 & Hc2 & HQ2).
    exists (evs1 ++ evs2). rewrite Hc2, Hc1, app_assoc. eauto.
  - exists evs1. eauto.
Qed.

Lemma emits_lib_call {F Module A} c (r : result A) Q :
  Q r [Event c (outcome r)] → emits (F:=F) (Module:=Module) (lib_call c r) Q.
Proof. intros HQ w. by exists [Event c (outcome r)]. Qed.

Section Closed.

Context {F symbol Module : Type}.
Context (P : ∀ A, result A → list event → Prop) (HP : closed P).

Lemma closed_ret {A} (a : A) : emits (F:=F) (Module:=Module) (mret a) (P A).
Proof using HP. intros w. exists []. split; [by rewrite app_nil_r | apply HP]. Qed.

Lemma closed_bind {A B} (m : @M F Module A) (k : A → M B) :
  emits m (P A) → (∀ a, emits (k a) (P B)) → emits (m ≫= k) (P B).
Proof using HP.
  intros Hm Hk. apply (emits_bind m k (P A) (fun _ => P B)); [done | done | |].
  - intros e evs. apply HP.
  - intros a r evs1 evs2. apply HP.
Qed.

Lemma closed_alloc_dict d : emits (alloc_dict (F:=F) (Module:=Module) d) (P loc).
Proof using HP. intros w. exists []. split; [by rewrite app_nil_r | apply HP]. Qed.

Lemma closed_read_dict l : emits (read_dict (F:=F) (Module:=Module) l) (P (params F)).
Proof using HP. intros w. exists []. split; [by rewrite app_nil_r | apply HP]. Qed.

Lemma closed_dict_setitem l key v :
  emits (dict_setitem (F:=F) (Module:=Module) l key v) (P unit).
Proof using HP. intros w. exists []. split; [by rewrite app_nil_r | apply HP]. Qed.

Lemma closed_alloc_mod m : emits (alloc_mod (F:=F) (Module:=Module) m) (P loc).
Proof using HP. intros w. exists []. split; [by rewrite app_nil_r | apply HP]. Qed.

Lemma closed_read_mod l : emits (read_mod (F:=F) (Module:=Module) l) (P Module).
Proof using HP. intros w. exists []. split; [by rewrite app_nil_r | apply HP]. Qed.

Lemma closed_write_mod l m : emits (write_mod (F:=F) (Module:=Module) l m) (P unit).
Proof using HP. intros w. exists []. split; [by rewrite app_nil_r | apply HP]. Qed.

Lemma closed_for_each {A S} (l : list A) (body : A → S → @M F Module S) s :
  (∀ x s, emits (body x s) (P S)) → emits (for_each l body s) (P S).
Proof using HP.
  intros Hbody. revert s. induction l as [|x l IH]; intros s.
  - apply (closed_ret s).
  - apply closed_bind; [apply Hbody | apply IH].
Qed.

End Closed.

Lemma raised_last_closed : closed raised_last.
Proof.
  split.
  - intros A a. by constructor.
  - done.
  - intros A B a [b|e] evs1 evs2 H1 H2; simpl in *.
    + by apply Forall_app.
    + destruct H2 as (evs0 & c & -> & H0). exists (evs1 ++ evs0), c.
      split; [by rewrite app_assoc | by apply Forall_app].
Qed.


Lemma raised_last_lib_call {F Module A} c (r : result A) :
  emits (F:=F) (Module:=Module) (lib_call c r) (raised_last A).
Proof.
  apply emits_lib_call. destruct r as [a|e]; simpl.
  - by repeat constructor.
  - exists [], c. by split.
Qed.


(** Splits an operation into the calls it is made of. *)
Ltac compose HP :=
  unfold predict, forward_pass, top_n, prepareNDArray, loadCategories, loadModel,
    load_checkpoint, new_Module, method_call, method_get;
  repeat first
    [ apply (closed_bind _ HP)
    | apply (closed_for_each _ HP)
    | apply (closed_ret _ HP)
    | apply (closed_alloc_dict _ HP)
    | apply (closed_read_dict _ HP)
    | apply (closed_dict_setitem _ HP)
    | apply (closed_alloc_mod _ HP)
    | apply (closed_read_mod _ HP)
    | apply (closed_write_mod _ HP)
    | match goal with
      | |- emits (if ?b then _ else _) _ => destruct b
      | |- emits _ _ => fail 1
      | |- _ => intros [[??]?]
      | |- _ => intro
      end ].

Lemma loadModel_raised_last {F symbol Module} (lib : @Library F symbol Module)
    modelname gpu_flag :
  emits (loadModel lib modelname gpu_flag) (raised_last loc).
Proof. compose raised_last_closed; apply raised_last_lib_call. Qed.

Lemma loadCategories_raised_last {F symbol Module} (lib : @Library F symbol Module) :
  emits (loadCategories lib) (raised_last (list string)).
Proof. compose raised_last_closed; apply raised_last_lib_call. Qed.

Lemma prepareNDArray_raised_last {F symbol Module} (lib : @Library F symbol Module)
    filename :
  emits (prepareNDArray lib filename) (raised_last (ndarray F)).
Proof. compose raised_last_closed; apply raised_last_lib_call. Qed.

Lemma predict_raised_last {F symbol Module} (lib : @Library F symbol Module)
    filename model categories n :
  emits (predict lib filename model categories n) (raised_last (list (F * string))).
Proof. compose raised_last_closed; apply raised_last_lib_call. Qed.

Lemma raised_last_propagates {F Module A} (m : @M F Module A) :
  emits m (raised_last A) → propagates m.
Proof.
  intros Hm w. destruct (Hm w) as (evs & Hcalls & Hlast).
  rewrite (new_calls_app w _ evs Hcalls). split_and!; [done | |].
  - intros e. split.
    + intros Hr. rewrite Hr in Hlast. destruct Hlast as (evs0 & c & -> & _).
      exists c. apply elem_of_app. right. apply list_elem_of_here.
    + intros [c Hc]. destruct ((m w).1) as [a|e'] eqn:Hr; simpl in Hlast.
      * rewrite Forall_forall in Hlast. by specialize (Hlast _ Hc).
      * destruct Hlast as (evs0 & c' & -> & H0).
        apply elem_of_app in Hc as [Hc|Hc].
        -- rewrite Forall_forall in H0. by specialize (H0 _ Hc).
        -- apply list_elem_of_singleton in Hc. by injection Hc as _ ->.
  - intros l ev l' Hsplit Hev.
    assert (Hin : ev ∈ evs).
    { rewrite Hsplit. apply elem_of_app. right. apply list_elem_of_here. }
    destruct ((m w).1) as [a|e']; simpl in Hlast.
    + rewrite Forall_forall in Hlast. by specialize (Hlast _ Hin).
    + destruct Hlast as (evs0 & c' & -> & H0).
      destruct l' as [|x l' _] using rev_ind; [done|]. exfalso.
      rewrite app_comm_cons, app_assoc in Hsplit.
      apply app_inj_tail in Hsplit as [-> _].
      rewrite Forall_forall in H0. apply Hev, H0.
      apply elem_of_app. right. apply list_elem_of_here.
Qed.

(** C7. None of the four operations recovers from, retries after or
    translates an error: each raises an exception exactly when one of
    the calls it made raised that exception, and the call that raised
    is the last one it made. *)
Theorem operations_propagate_errors {F symbol Module} (lib : @Library F symbol Module) :
  (∀ modelname gpu_flag, propagates (loadModel lib modelname gpu_flag)) ∧
  propagates (loadCategories lib) ∧
  (∀ filename, propagates (prepareNDArray lib filename)) ∧
  (∀ filename model categories n, propagates (predict lib filename model categories n)).
Proof.
  split_and!; intros; apply raised_last_propagates.
  - apply loadModel_raised_last.
  - apply loadCategories_raised_last.
  - apply prepareNDArray_raised_last.
  - apply predict_raised_last.
Qed.

(** An operation with a handler is told apart: a [try] ... [except]
    that returns a default does not propagate. *)
Lemma try_except_recovers :
  ¬ propagates (F:=Z) (Module:=list (ndarray Z))
      (try_except (lib_call (COpen "labels.txt" "r") (Raise IndexError))
                  (fun _ => mret (@nil string))).
Proof.
  intros H. destruct (H demo_world) as (_ & Hiff & _).
  assert (Hr : (Ok [] : result (list string)) = Raise IndexError); [|done].
  apply Hiff. exists (COpen "labels.txt" "r"). apply list_elem_of_here.
Qed.

(** So is one that raises an exception of its own. *)
Lemma py_raise_not_propagated :
  ¬ propagates (F:=Z) (Module:=list (ndarray Z)) (py_raise (A:=unit) IndexError).
Proof.
  intros H. destruct (H demo_world) as (_ & Hiff & _).
  destruct (proj1 (Hiff IndexError) eq_refl) as [c Hc]. by apply elem_of_nil in Hc.
Qed.

(** ** prepareNDArray *)

(** [prepareNDArray] touches neither dictionaries nor modules. *)
Lemma prepareNDArray_heap {F symbol Module} (lib : @Library F symbol Module)
    filename (w : world) :
  let w' := (prepareNDArray lib filename w).2 in
  dicts w' = dicts w ∧ next_dict w' = next_dict w ∧
  mods w' = mods w ∧ next_mod w' = next_mod w.
Proof. unfold prepareNDArray. unfold_monad. repeat step; done. Qed.

(** C2. For every file that [cv2.imread] decodes (to an image of some
    height and width with three channels, in BGR order),
    [prepareNDArray] returns an array of shape (1, 3, 224, 224): the
    image with its first and third channel exchanged, resized to
    224 x 224, with the channel axis moved to the front of the rows and
    columns, behind a new leading axis. *)
Theorem prepareNDArray_shape {F symbol Module} (lib : @Library F symbol Module)
    filename (w : world) img height width :
  cv2_imread lib filename = Some img →
  shape img = [height; width; 3] →
  0 < height → 0 < width →
  ∃ array rgb resized,
    (prepareNDArray lib filename w).1 = Ok array ∧
    cv2_cvtColor_BGR2RGB (Some img) = Ok rgb ∧
    shape rgb = [height; width; 3] ∧
    (∀ y x c, c < 3 → at_index rgb [y; x; c] = at_index img [y; x; 2 - c]) ∧
    cv2_resize lib rgb 224 224 = Ok resized ∧
    shape resized = [224; 224; 3] ∧
    shape array = [1; 3; 224; 224] ∧
    (∀ c y x, at_index array [0; c; y; x] = float32 lib (at_index resized [y; x; c])).
Proof.
  intros Himread Hshape Hh Hw.
  assert (Hcvt : cv2_cvtColor_BGR2RGB (Some img) =
                 Ok (NDArray [height; width; 3]
                       (fun idx => match idx with
                                   | [y; x; c] => at_index img [y; x; 2 - c]
                                   | _ => at_index img idx
                                   end))).
  { unfold cv2_cvtColor_BGR2RGB. rewrite Hshape.
    apply Nat.ltb_lt in Hh as ->. by apply Nat.ltb_lt in Hw as ->. }
  eexists _, _, _. split_and!.
  - unfold prepareNDArray. unfold_monad. rewrite Himread, Hcvt. unfold_monad.
    unfold cv2_resize. cbn [shape].
    apply Nat.ltb_lt in Hh as ->. apply Nat.ltb_lt in Hw as ->.
    reflexivity.
  - exact Hcvt.
  - done.
  - done.
  - unfold cv2_resize. cbn [shape].
    apply Nat.ltb_lt in Hh as ->. by apply Nat.ltb_lt in Hw as ->.
  - done.
  - done.
  - done.
Qed.

Lemma prepareNDArray_shape_witness :
  ∃ array rgb resized,
    (prepareNDArray (demo_lib demo_synset [demo_scores]) "violin.jpg" demo_world).1
      = Ok array ∧
    cv2_cvtColor_BGR2RGB (Some demo_image) = Ok rgb ∧
    shape rgb = [2; 2; 3] ∧
    (∀ y x c, c < 3 → at_index rgb [y; x; c] = at_index demo_image [y; x; 2 - c]) ∧
    cv2_resize (demo_lib demo_synset [demo_scores]) rgb 224 224 = Ok resized ∧
    shape resized = [224; 224; 3] ∧
    shape array = [1; 3; 224; 224] ∧
    (∀ c y x, at_index array [0; c; y; x] = at_index resized [y; x; c]).
Proof.
  apply (prepareNDArray_shape (demo_lib demo_synset [demo_scores]) "violin.jpg"
           demo_world demo_image 2 2); [reflexivity | reflexivity | lia | lia].
Defined.

(** ** predict: the forward pass *)






Lemma forward_pass_run {F symbol Module} (lib : @Library F symbol Module)
    filename model (w : world) array w1 m' outputs out0 :
  prepareNDArray lib filename w = (Ok array, w1) →
  Module_forward lib (mods w model) [array] = Ok m' →
  Module_get_outputs lib m' = Ok outputs →
  outputs !! 0 = Some out0 →
  ∃ w2, forward_pass lib filename model w = (Ok (np_squeeze out0), w2).
Proof.
  intros Hprep Hforward Hget Hout0.
  destruct (prepareNDArray_heap lib filename w) as (_ & _ & Hmods & _).
  rewrite Hprep in Hmods. simpl in Hmods.
  unfold forward_pass. unfold_monad. rewrite Hprep. unfold_monad.
  rewrite Hmods, Hforward. unfold_monad. rewrite upd_eq, Hget. unfold_monad.
  unfold list_getitem. rewrite Hout0. unfold_monad. by eexists.
Qed.

Lemma np_squeeze_row {A} (a : ndarray A) k :
  shape a = [1; k] → k ≠ 1 →
  shape (np_squeeze a) = [k] ∧
  ∀ i, at_index (np_squeeze a) [i] = at_index a [0; i].
Proof.
  intros Hshape Hk. unfold np_squeeze. cbn [shape at_index]. rewrite Hshape.
  assert (Hk' : (k =? 1) = false) by by apply Nat.eqb_neq.
  split.
  - cbn. repeat case_decide; done.
  - intros i. cbn. by rewrite Hk'.
Qed.




(** ** predict: the selection of the top [n] *)

Lemma slice_to_nonneg {A} (l : list A) n :
  (0 ≤ n)%Z → slice_to l n = take (Z.to_nat n) l.
Proof.
  intros Hn. unfold slice_to.
  destruct (Z.ltb_spec n 0) as [?|_]; [lia|].
  destruct (Z.le_gt_cases n (Z.of_nat (length l))).
  - by rewrite Z.min_l.
  - rewrite Z.min_r, Nat2Z.id by lia. by rewrite !take_ge by lia.
Qed.

Lemma StronglySorted_reverse {A} (R : relation A) l :
  StronglySorted R l → StronglySorted (flip R) (reverse l).
Proof.
  induction 1 as [|x l Hl IH Hx]; [constructor|].
  rewrite reverse_cons. apply StronglySorted_app_2.
  - intros y z Hy ->%list_elem_of_singleton. rewrite elem_of_reverse in Hy.
    rewrite Forall_forall in Hx. unfold flip. by apply Hx.
  - done.
  - repeat constructor.
Qed.

Lemma nd_getitem_vector {A} (a : ndarray A) k i :
  shape a = [k] → i < k → nd_getitem a i = Ok (at_index a [i]).
Proof.
  intros Hshape Hi. unfold nd_getitem. rewrite Hshape.
  by apply Nat.ltb_lt in Hi as ->.
Qed.

(** A loop whose body appends one element per iteration. *)
Lemma for_each_append {F Module A B} (P : A → Prop) (R : A → B → Prop)
    (body : A → list B → @M F Module (list B)) l acc (w : world) :
  (∀ x acc w, P x →
     ∃ y w', body x acc w = (Ok (acc ++ [y]), w') ∧ R x y ∧
             ∃ evs, calls w' = calls w ++ evs ∧ Forall succeeded evs) →
  Forall P l →
  ∃ ys w',
    for_each l body acc w = (Ok (acc ++ ys), w') ∧
    Forall2 R l ys ∧
    ∃ evs, calls w' = calls w ++ evs ∧ Forall succeeded evs.
Proof.
  intros Hbody Hl. revert acc w.
  induction Hl as [|x l Hx _ IH]; intros acc w.
  - exists [], w. rewrite app_nil_r. split_and!; [done | constructor |].
    exists []. by rewrite app_nil_r.
  - destruct (Hbody x acc w Hx) as (y & w1 & Hrun1 & Hy & evs1 & Hc1 & He1).
    destruct (IH (acc ++ [y]) w1) as (ys & w' & Hrun & Hys & evs & Hc & He).
    exists (y :: ys), w'. split_and!.
    + cbn [for_each]. unfold mbind, M_bind, bind. rewrite Hrun1, Hrun.
      by rewrite <- app_assoc.
    + by constructor.
    + exists (evs1 ++ evs). split; [by rewrite Hc, Hc1, app_assoc|].
      by apply Forall_app.
Qed.

Lemma top_n_run {F symbol Module} (lib : @Library F symbol Module)
    prob k categories n (w : world) :
  shape prob = [k] →
  Forall (fun i => i < k ∧ i < length categories)
    (slice_to (reverse (np_argsort lib prob)) n) →
  ∃ topn w',
    top_n lib prob categories n w = (Ok topn, w') ∧
    Forall2 (paired prob categories) (slice_to (reverse (np_argsort lib prob)) n) topn ∧
    ∃ evs, calls w' = calls w ++ evs ∧ Forall succeeded evs.
Proof.
  intros Hshape Hidx. unfold top_n.
  apply (for_each_append (fun i => i < k ∧ i < length categories)); [|done].
  intros i acc w0 [Hik Hic].
  destruct (lookup_lt_is_Some_2 categories i Hic) as [c Hc].
  exists (at_index prob [i], c). eexists. split_and!.
  - unfold_monad. rewrite (nd_getitem_vector prob k i Hshape Hik).
    unfold list_getitem. rewrite Hc. unfold_monad. reflexivity.
  - done.
  - eexists. split; [cbn [calls]; by rewrite <- app_assoc|]. by repeat constructor.
Qed.

Lemma paired_sorted {F} (le : relation F) (prob : ndarray F) categories idx topn :
  Forall2 (paired prob categories) idx topn →
  StronglySorted (fun i j => le (at_index prob [j]) (at_index prob [i])) idx →
  StronglySorted (fun p q => le q.1 p.1) topn.
Proof.
  induction 1 as [|i pc idx topn [Hp _] Hrest IH]; [constructor|].
  intros [Hi Hsorted]%StronglySorted_cons. constructor; [by apply IH|].
  clear IH Hsorted. induction Hrest as [|j qc idx topn [Hq _] _ IH]; [constructor|].
  apply Forall_cons in Hi as [Hij Hi]. constructor; [|by apply IH].
  by rewrite Hp, Hq.
Qed.

Lemma argsort_in_range {F symbol Module} (lib : @Library F symbol Module) prob k n i :
  argsort_permutes lib → shape prob = [k] →
  i ∈ slice_to (reverse (np_argsort lib prob)) n → i < k.
Proof.
  intros Hperm Hshape Hi. unfold slice_to in Hi.
  assert (Hin : i ∈ reverse (np_argsort lib prob)) by (eapply subseteq_take; exact Hi).
  rewrite elem_of_reverse, (Hperm prob k Hshape), elem_of_seq in Hin. lia.
Qed.

Lemma predict_after_forward_pass {F symbol Module} (lib : @Library F symbol Module)
    filename model categories n (w : world) prob w1 :
  forward_pass lib filename model w = (Ok prob, w1) →
  predict lib filename model categories n w = top_n lib prob categories n w1.
Proof. intros Hrun. unfold predict, mbind, M_bind, bind. by rewrite Hrun. Qed.

Global Instance score_le_trans a : Transitive (score_le a).
Proof. unfold score_le. intros i j k. lia. Qed.

Global Instance score_le_total a : Total (score_le a).
Proof. unfold score_le. intros i j. lia. Qed.

Lemma demo_argsort_permutes synset outputs : argsort_permutes (demo_lib synset outputs).
Proof.
  intros a k Hshape. cbn [np_argsort demo_lib]. unfold demo_argsort. rewrite Hshape.
  apply merge_sort_Permutation.
Qed.

Lemma demo_argsort_ascends synset outputs : argsort_ascends Z.le (demo_lib synset outputs).
Proof.
  intros a k Hshape. cbn [np_argsort demo_lib]. unfold demo_argsort. rewrite Hshape.
  apply (StronglySorted_merge_sort (score_le a)).
Qed.

(** The ranking of a vector: the pairs of a prefix of its indices in
    descending order of value. The order [le] is the one that
    [np.argsort] sorts by. *)
Lemma top_n_ranked {F symbol Module} (le : relation F) (lib : @Library F symbol Module)
    filename model categories n (w : world) prob k w1 :
  argsort_permutes lib →
  argsort_ascends le lib →
  forward_pass lib filename model w = (Ok prob, w1) →
  shape prob = [k] →
  let sortedprobindex := reverse (np_argsort lib prob) in
  let top := slice_to sortedprobindex n in
  (∀ i, i ∈ top → i < length categories) →
  ∃ topn,
    (predict lib filename model categories n w).1 = Ok topn ∧
    sortedprobindex ≡ₚ seq 0 k ∧
    StronglySorted (fun i j => le (at_index prob [j]) (at_index prob [i]))
      sortedprobindex ∧
    top = take (length top) sortedprobindex ∧
    ((0 ≤ n)%Z → top = take (Z.to_nat n) sortedprobindex) ∧
    (∀ i j, i ∈ top → j < k → j ∉ top → le (at_index prob [j]) (at_index prob [i])) ∧
    Forall2 (paired prob categories) top topn ∧
    StronglySorted (fun p q => le q.1 p.1) topn.
Proof.
  intros Hperm Hasc Hrun Hshape sortedprobindex top Hlabels.
  assert (Hprefix : ∃ m, top = take m sortedprobindex) by by eexists.
  destruct Hprefix as [m Htop].
  assert (Hsorted : StronglySorted
            (fun i j => le (at_index prob [j]) (at_index prob [i])) sortedprobindex).
  { apply (StronglySorted_reverse
             (fun i j => le (at_index prob [i]) (at_index prob [j]))).
    by apply (Hasc prob k). }
  assert (Hperm' : sortedprobindex ≡ₚ seq 0 k).
  { unfold sortedprobindex. rewrite reverse_Permutation. by apply Hperm. }
  destruct (top_n_run lib prob k categories n w1 Hshape)
    as (topn & w2 & Hsel & Hpairs & _).
  { apply Forall_forall. intros i Hi. split.
    - by apply (argsort_in_range lib prob k n i Hperm Hshape).
    - by apply Hlabels. }
  exists topn. split_and!; [| done | done | | | | done |].
  - by rewrite (predict_after_forward_pass lib filename model categories n w prob w1),
      Hsel.
  - rewrite Htop at 2. rewrite Htop, length_take.
    destruct (Nat.le_ge_cases m (length sortedprobindex)).
    + by rewrite Nat.min_l.
    + rewrite Nat.min_r by done. by rewrite !take_ge.
  - intros Hn. by apply slice_to_nonneg.
  - intros i j Hi Hj Hnot. rewrite Htop in Hi, Hnot.
    assert (Hjin : j ∈ drop m sortedprobindex).
    { assert (Hj' : j ∈ sortedprobindex).
      { rewrite Hperm', elem_of_seq. lia. }
      rewrite <- (take_drop m sortedprobindex) in Hj'.
      apply elem_of_app in Hj' as [?|?]; done. }
    rewrite <- (take_drop m sortedprobindex) in Hsorted.
    by apply (StronglySorted_app_1_elem_of _ _ _ i j Hsorted).
  - apply (paired_sorted le prob categories top); [done|].
    rewrite <- (take_drop m sortedprobindex) in Hsorted. rewrite Htop.
    by apply StronglySorted_app_1_l in Hsorted.
Qed.

(** The selection on a vector with enough categories. *)
Lemma top_n_in_range {F symbol Module} (lib : @Library F symbol Module)
    filename model categories n (w : world) prob k w1 :
  argsort_permutes lib →
  forward_pass lib filename model w = (Ok prob, w1) →
  shape prob = [k] →
  (0 ≤ n)%Z →
  k ≤ length categories →
  ∃ topn,
    (predict lib filename model categories n w).1 = Ok topn ∧
    length topn = Z.to_nat n `min` k ∧
    (k ≤ Z.to_nat n → length topn = k) ∧
    (∀ i, i ∈ slice_to (reverse (np_argsort lib prob)) n → i < k ∧ i < length categories) ∧
    Forall succeeded (new_calls w1 (predict lib filename model categories n w).2).
Proof.
  intros Hperm Hrun Hshape Hn Hk.
  assert (Hrange : ∀ i, i ∈ slice_to (reverse (np_argsort lib prob)) n →
                        i < k ∧ i < length categories).
  { intros i Hi. pose proof (argsort_in_range lib prob k n i Hperm Hshape Hi). lia. }
  destruct (top_n_run lib prob k categories n w1 Hshape)
    as (topn & w2 & Htop & Hpairs & evs & Hcalls & Hevs).
  { by apply Forall_forall. }
  assert (Hlen : length topn = Z.to_nat n `min` k).
  { rewrite <- (Forall2_length _ _ _ Hpairs), slice_to_nonneg, length_take,
      length_reverse by done.
    by rewrite (Permutation_length (Hperm prob k Hshape)), length_seq. }
  exists topn.
  rewrite (predict_after_forward_pass lib filename model categories n w prob w1 Hrun),
    Htop.
  split_and!; [done | done | lia | done |].
  cbn [snd]. by rewrite (new_calls_app w1 w2 evs Hcalls).
Qed.

Lemma demo_forward_pass :
  let lib := demo_lib demo_synset [demo_scores] in
  forward_pass lib "violin.jpg" 0 demo_world
  = (Ok (np_squeeze demo_scores), (forward_pass lib "violin.jpg" 0 demo_world).2).
Proof. vm_compute. reflexivity. Qed.

Lemma demo_ranking :
  reverse (demo_argsort (np_squeeze demo_scores)) = [1; 2; 0].
Proof. vm_compute. reflexivity. Qed.

Lemma demo_prepared :
  ∃ array w1,
    prepareNDArray (demo_lib demo_synset [demo_scores]) "violin.jpg" demo_world
    = (Ok array, w1).
Proof.
  destruct (prepareNDArray (demo_lib demo_synset [demo_scores]) "violin.jpg" demo_world)
    as [[array|e] w1] eqn:Hprep; [by eexists _, _|].
  vm_compute in Hprep. discriminate Hprep.
Qed.

Lemma scalar_argsort_permutes : argsort_permutes scalar_lib.
Proof.
  intros a k Hshape. cbn [np_argsort scalar_lib]. unfold scalar_argsort, demo_argsort.
  rewrite Hshape. apply merge_sort_Permutation.
Qed.

Lemma scalar_argsort_ascends : argsort_ascends Z.le scalar_lib.
Proof.
  intros a k Hshape. cbn [np_argsort scalar_lib]. unfold scalar_argsort, demo_argsort.
  rewrite Hshape. apply (StronglySorted_merge_sort (score_le a)).
Qed.

(** C1, as the code has it. For every forward pass whose output is one
    row of [k] probabilities, [k] other than 1, and every count [n],
    when the categories hold a label at each index selected, [predict]
    returns the top entries as pairs in descending order of
    probability: the indices of the row are sorted by descending
    value, a prefix of them is taken, the first [n] for a count [n]
    (a negative [n] is counted from the end, as slices do), no index
    left out has a larger value than one taken, and each index taken is
    paired with the probability and with the label of the categories
    at that index. The order [le] is the one [np.argsort] sorts by. *)
Theorem predict_top_n {F symbol Module} (le : relation F) (lib : @Library F symbol Module)
    filename model categories n (w : world) array w1 m' outputs out0 k :
  argsort_permutes lib →
  argsort_ascends le lib →
  prepareNDArray lib filename w = (Ok array, w1) →
  Module_forward lib (mods w model) [array] = Ok m' →
  Module_get_outputs lib m' = Ok outputs →
  outputs !! 0 = Some out0 →
  shape out0 = [1; k] →
  k ≠ 1 →
  let prob := np_squeeze out0 in
  let sortedprobindex := reverse (np_argsort lib prob) in
  let top := slice_to sortedprobindex n in
  (∀ i, i ∈ top → i < length categories) →
  ∃ topn,
    (predict lib filename model categories n w).1 = Ok topn ∧
    shape prob = [k] ∧
    (∀ i, at_index prob [i] = at_index out0 [0; i]) ∧
    sortedprobindex ≡ₚ seq 0 k ∧
    StronglySorted (fun i j => le (at_index prob [j]) (at_index prob [i]))
      sortedprobindex ∧
    top = take (length top) sortedprobindex ∧
    ((0 ≤ n)%Z → top = take (Z.to_nat n) sortedprobindex) ∧
    (∀ i j, i ∈ top → j < k → j ∉ top → le (at_index prob [j]) (at_index prob [i])) ∧
    Forall2 (paired prob categories) top topn ∧
    StronglySorted (fun p q => le q.1 p.1) topn.
Proof.
  intros Hperm Hasc Hprep Hforward Hget Hout0 Hshape Hk prob sortedprobindex top Hlabels.
  destruct (forward_pass_run lib filename model w array w1 m' outputs out0)
    as [w2 Hrun]; [done..|].
  destruct (np_squeeze_row out0 k Hshape Hk) as [Hvector Hat].
  destruct (top_n_ranked le lib filename model categories n w prob k w2)
    as (topn & H1 & H2 & H3 & H4 & H5 & H6 & H7 & H8); [done..|].
  exists topn. by split_and!.
Qed.

Lemma predict_top_n_witness :
  let lib := demo_lib demo_synset [demo_scores] in
  ∃ topn,
    (predict lib "violin.jpg" 0 ["cat"; "dog"; "fox"] 2 demo_world).1 = Ok topn ∧
    Forall2 (paired (np_squeeze demo_scores) ["cat"; "dog"; "fox"]) [1; 2] topn ∧
    StronglySorted (fun p q => (q.1 ≤ p.1)%Z) topn.
Proof.
  intros lib. destruct demo_prepared as (array & w1 & Hprep).
  destruct (predict_top_n Z.le lib "violin.jpg" 0 ["cat"; "dog"; "fox"] 2 demo_world
              array w1 [demo_scores] [demo_scores] demo_scores 3)
    as (topn & Hrun & _ & _ & _ & _ & _ & _ & _ & Hpairs & Hsorted).
  - apply demo_argsort_permutes.
  - apply demo_argsort_ascends.
  - exact Hprep.
  - reflexivity.
  - reflexivity.
  - reflexivity.
  - reflexivity.
  - lia.
  - intros i. change (np_argsort lib) with demo_argsort. rewrite demo_ranking.
    change (slice_to [1; 2; 0] 2) with [1; 2].
    intros Hi. apply elem_of_cons in Hi as [->|Hi]; [simpl; lia|].
    apply elem_of_cons in Hi as [->|Hi]; [simpl; lia|]. by apply elem_of_nil in Hi.
  - exists topn. split_and!; [done | | done].
    revert Hpairs. change (np_argsort lib) with demo_argsort. by rewrite demo_ranking.
Defined.

(** C1 as stated fails. A model with a single output value yields a
    vector of one probability; [np.squeeze] leaves it without any
    axis, [np.argsort] yields [[0]], and [prob[0]] raises [IndexError]
    for a request of one entry, although the categories hold a label.
    And with three probabilities and two labels, a request for the top
    two raises [IndexError] at the index without label. *)
Lemma predict_top_n_counterexample :
  argsort_permutes scalar_lib ∧
  argsort_ascends Z.le scalar_lib ∧
  shape demo_scalar = [1; 1] ∧
  (forward_pass scalar_lib "violin.jpg" 0 demo_world).1 = Ok (np_squeeze demo_scalar) ∧
  (predict scalar_lib "violin.jpg" 0 ["cat"] 1 demo_world).1 = Raise IndexError ∧
  (predict (demo_lib demo_synset [demo_scores]) "violin.jpg" 0 ["cat"; "dog"] 2
     demo_world).1 = Raise IndexError.
Proof.
  split_and!.
  - apply scalar_argsort_permutes.
  - apply scalar_argsort_ascends.
  - reflexivity.
  - vm_compute. reflexivity.
  - vm_compute. reflexivity.
  - vm_compute. reflexivity.
Qed.

(** C9, as the code has it. For every count [n] that is not negative
    and every forward pass whose output is one row of [k]
    probabilities, [k] other than 1, when the categories are at least
    [k], the selection never indexes out of range: every call it makes
    succeeds and every index it uses is within the row and within the
    categories; and it returns exactly [min n k] pairs, all [k] of them
    when [n] is larger. *)
Theorem predict_top_n_in_range {F symbol Module} (lib : @Library F symbol Module)
    filename model categories n (w : world) array w1 m' outputs out0 k :
  argsort_permutes lib →
  prepareNDArray lib filename w = (Ok array, w1) →
  Module_forward lib (mods w model) [array] = Ok m' →
  Module_get_outputs lib m' = Ok outputs →
  outputs !! 0 = Some out0 →
  shape out0 = [1; k] →
  k ≠ 1 →
  (0 ≤ n)%Z →
  k ≤ length categories →
  ∃ topn w2,
    forward_pass lib filename model w = (Ok (np_squeeze out0), w2) ∧
    (predict lib filename model categories n w).1 = Ok topn ∧
    length topn = Z.to_nat n `min` k ∧
    (k ≤ Z.to_nat n → length topn = k) ∧
    (∀ i, i ∈ slice_to (reverse (np_argsort lib (np_squeeze out0))) n →
          i < k ∧ i < length categories) ∧
    Forall succeeded (new_calls w2 (predict lib filename model categories n w).2).
Proof.
  intros Hperm Hprep Hforward Hget Hout0 Hshape Hk Hn Hcats.
  destruct (forward_pass_run lib filename model w array w1 m' outputs out0)
    as [w2 Hrun]; [done..|].
  destruct (np_squeeze_row out0 k Hshape Hk) as [Hvector _].
  destruct (top_n_in_range lib filename model categories n w (np_squeeze out0) k w2)
    as (topn & H1 & H2 & H3 & H4 & H5); [done..|].
  exists topn, w2. by split_and!.
Qed.

Lemma predict_top_n_in_range_witness :
  let lib := demo_lib demo_synset [demo_scores] in
  ∃ topn,
    (predict lib "violin.jpg" 0 ["cat"; "dog"; "fox"] 7 demo_world).1 = Ok topn ∧
    length topn = 3.
Proof.
  intros lib. destruct demo_prepared as (array & w1 & Hprep).
  destruct (predict_top_n_in_range lib "violin.jpg" 0 ["cat"; "dog"; "fox"] 7 demo_world
              array w1 [demo_scores] [demo_scores] demo_scores 3)
    as (topn & w2 & _ & Hrun & Hlen & _).
  - apply demo_argsort_permutes.
  - exact Hprep.
  - reflexivity.
  - reflexivity.
  - reflexivity.
  - reflexivity.
  - lia.
  - lia.
  - simpl. lia.
  - exists topn. split; [done|]. rewrite Hlen. reflexivity.
Defined.

(** C9 as stated fails. For a model with a single output value the
    vector has one entry and the categories hold one label, as many;
    [np.squeeze] leaves the vector without any axis, [np.argsort]
    yields [[0]], and for a request of one entry, or of five, [prob[0]]
    is out of range and raises [IndexError]. *)
Lemma predict_top_n_in_range_counterexample :
  argsort_permutes scalar_lib ∧
  shape demo_scalar = [1; 1] ∧
  (forward_pass scalar_lib "violin.jpg" 0 demo_world).1 = Ok (np_squeeze demo_scalar) ∧
  1 ≤ length ["cat"] ∧
  (predict scalar_lib "violin.jpg" 0 ["cat"] 1 demo_world).1 = Raise IndexError ∧
  (predict scalar_lib "violin.jpg" 0 ["cat"] 5 demo_world).1 = Raise IndexError.
Proof.
  split_and!.
  - apply scalar_argsort_permutes.
  - reflexivity.
  - vm_compute. reflexivity.
  - simpl. lia.
  - vm_compute. reflexivity.
  - vm_compute. reflexivity.
Qed.

(** * Further properties of the notebook *)

(** ** The label file *)

Lemma string_app_assoc s t u :
  String.app (String.app s t) u = String.app s (String.app t u).
Proof. induction s as [|c s IH]; [done|]. by rewrite !string_app_cons, IH. Qed.

Lemma rstrip_cons c s :
  rstrip (String c s) =
  match rstrip s with
  | EmptyString => if py_isspace c then EmptyString else String c EmptyString
  | r => String c r
  end.
Proof. reflexivity. Qed.

Lemma rstrip_empty_iff s : rstrip s = EmptyString ↔ all_space s = true.
Proof.
  induction s as [|c s IH]; [done|]. rewrite rstrip_cons. cbn [all_space].
  destruct (rstrip s) as [|c' r].
  - destruct (py_isspace c); [|done]. simpl. by rewrite <- IH.
  - split; [done|]. intros [_ Hs]%andb_prop. by apply IH in Hs.
Qed.

Lemma rstrip_app_space s ws :
  all_space ws = true → rstrip (String.app s ws) = rstrip s.
Proof.
  intros Hws. induction s as [|c s IH].
  - rewrite string_app_nil. by apply rstrip_empty_iff.
  - by rewrite string_app_cons, !rstrip_cons, IH.
Qed.

(** The list of labels read from a text. *)
Lemma loadCategories_result {F symbol Module} (lib : @Library F symbol Module)
    (w : world) contents :
  py_open lib "synset.txt" "r" = Ok contents →
  (loadCategories lib w).1 = Ok (rstrip <$> readlines contents).
Proof. intros Hopen. by rewrite loadCategories_run, Hopen. Qed.



Lemma readlines_terminate s :
  unterminated s = true →
  rstrip <$> readlines (String.app s (String newline EmptyString))
  = rstrip <$> readlines s.
Proof.
  unfold unterminated. induction s as [|c s IH]; [done|].
  rewrite last_char_cons, string_app_cons. cbn [readlines].
  destruct s as [|c' s'].
  - intros Hc%negb_true_iff. rewrite string_app_nil. cbn [readlines].
    rewrite Hc. change (Ascii.eqb newline newline) with true.
    cbn [fmap list_fmap]. by rewrite !rstrip_cons.
  - intros Hs. specialize (IH Hs).
    destruct (Ascii.eqb c newline); [cbn [fmap list_fmap] in *; by rewrite IH|].
    destruct (readlines (String.app (String c' s') (String newline EmptyString)))
      as [|l ls] eqn:E1;
      destruct (readlines (String c' s')) as [|l' ls'] eqn:E2;
      cbn [fmap list_fmap] in *; try done.
    injection IH as Hl Hls. by rewrite !rstrip_cons, Hl, Hls.
Qed.

(** X2. Whether the last line of the label file ends with a newline
    makes no difference: a file whose last line is unterminated gives
    the labels of the same file with the newline added. *)
Theorem loadCategories_final_newline {F symbol Module}
    (lib lib' : @Library F symbol Module) (w w' : world) contents :
  py_open lib "synset.txt" "r" = Ok contents →
  py_open lib' "synset.txt" "r" = Ok (String.app contents (String newline EmptyString)) →
  unterminated contents = true →
  (loadCategories lib w).1 = (loadCategories lib' w').1.
Proof.
  intros Hopen Hopen' Hlast.
  rewrite (loadCategories_result lib w _ Hopen), (loadCategories_result lib' w' _ Hopen').
  by rewrite readlines_terminate.
Qed.

Lemma loadCategories_final_newline_witness :
  (loadCategories (demo_lib demo_synset []) demo_world).1
  = (loadCategories
       (demo_lib (String.app demo_synset (String newline EmptyString)) []) demo_world).1.
Proof.
  apply (loadCategories_final_newline (demo_lib demo_synset [])
           (demo_lib (String.app demo_synset (String newline EmptyString)) [])
           demo_world demo_world demo_synset); reflexivity.
Defined.

Lemma readlines_write_labels labels :
  Forall (fun label => count_newlines label = 0) labels →
  readlines (write_labels labels)
  = (fun label => String.app label (String newline EmptyString)) <$> labels.
Proof.
  unfold write_labels. induction 1 as [|label labels Hlabel _ IH]; [done|].
  cbn [fmap list_fmap join]. rewrite string_app_assoc, string_app_cons, string_app_nil.
  rewrite readlines_app_line by done. by rewrite IH.
Qed.

(** X3. Labels that hold no newline and do not end with whitespace are
    read back as they were written, one per line: [loadCategories]
    returns exactly the labels of such a file, in order. *)
Theorem loadCategories_read_back {F symbol Module} (lib : @Library F symbol Module)
    (w : world) labels :
  Forall (fun label => count_newlines label = 0 ∧ ends_with_space label = false) labels →
  py_open lib "synset.txt" "r" = Ok (write_labels labels) →
  (loadCategories lib w).1 = Ok labels.
Proof.
  intros Hlabels Hopen. rewrite (loadCategories_result lib w _ Hopen). f_equal.
  rewrite readlines_write_labels by (eapply Forall_impl; [done | by intros ? []]).
  clear Hopen. induction Hlabels as [|label labels [_ Hend] _ IH]; [done|].
  cbn [fmap list_fmap] in *. rewrite IH. f_equal.
  rewrite rstrip_app_space by done. by apply rstrip_id.
Qed.

Lemma loadCategories_read_back_witness :
  (loadCategories (demo_lib (write_labels ["n01440764 tench"; ""; "dog"]) []) demo_world).1
  = Ok ["n01440764 tench"; ""; "dog"].
Proof.
  apply (loadCategories_read_back
           (demo_lib (write_labels ["n01440764 tench"; ""; "dog"]) []) demo_world).
  - repeat constructor.
  - reflexivity.
Defined.

(** ** Loading a model *)

(** X4. When the checkpoint cannot be loaded, [loadModel] raises the
    error of [load_checkpoint] and has done nothing else: no
    dictionary and no module was created, and no other call made. *)
Theorem loadModel_checkpoint_failure {F symbol Module} (lib : @Library F symbol Module)
    modelname gpu_flag (w : world) e :
  mx_model_load_checkpoint lib modelname 0 = Raise e →
  loadModel lib modelname gpu_flag w
  = (Raise e, log (Event (CLoadCheckpoint modelname 0) (Some e)) w).
Proof.
  intros Hload. rewrite loadModel_load_on. unfold load_on. unfold_monad.
  by rewrite Hload.
Qed.

Lemma loadModel_checkpoint_failure_witness :
  let lib := demo_lib demo_synset [demo_scores] in
  let e := PyErr "MXNetError" "cannot open the checkpoint" in
  loadModel lib "resnet-152" true demo_world
  = (Raise e, log (Event (CLoadCheckpoint "resnet-152" 0) (Some e)) demo_world).
Proof.
  apply (loadModel_checkpoint_failure (demo_lib demo_synset [demo_scores])
           "resnet-152" true demo_world).
  reflexivity.
Defined.

(** X5. When every step succeeds, [loadModel] returns a new module:
    the one made from the symbol of the checkpoint on the context of
    the flag, bound for inference to one 3 x 224 x 224 image, and given
    the loaded parameters together with the two label entries. The
    modules that existed are left as they were. *)
Theorem loadModel_success {F symbol Module} (lib : @Library F symbol Module)
    modelname gpu_flag (w : world) sym arg aux m0 m1 m2 :
  mx_model_load_checkpoint lib modelname 0 = Ok (sym, arg, aux) →
  mx_mod_Module lib sym (flag_context gpu_flag) = Ok m0 →
  Module_bind lib m0 false [("data", [1; 3; 224; 224])] = Ok m1 →
  Module_set_params lib m1
    (<["softmax_label" := mx_nd_array_0 lib]> (<["prob_label" := mx_nd_array_0 lib]> arg))
    aux = Ok m2 →
  let w' := (loadModel lib modelname gpu_flag w).2 in
  (loadModel lib modelname gpu_flag w).1 = Ok (next_mod w) ∧
  mods w' (next_mod w) = m2 ∧
  next_mod w' = S (next_mod w) ∧
  (∀ l, l ≠ next_mod w → mods w' l = mods w l).
Proof.
  intros Hload Hnew Hbind Hset. rewrite loadModel_load_on. unfold load_on.
  unfold_monad. rewrite Hload. unfold_monad. rewrite Hnew. unfold_monad.
  rewrite !upd_eq. change data_shapes with [("data", [1; 3; 224; 224])].
  rewrite Hbind. unfold_monad.
  repeat (rewrite upd_eq || rewrite upd_ne by lia).
  rewrite Hset. unfold_monad. split_and!; [done | by rewrite upd_eq | done |].
  intros l Hl. by rewrite !upd_ne.
Qed.

Lemma loadModel_success_witness :
  let lib := demo_lib demo_synset [demo_scores] in
  let w' := (loadModel lib "vgg16" true demo_world).2 in
  (loadModel lib "vgg16" true demo_world).1 = Ok 0 ∧
  mods w' 0 = [] ∧
  next_mod w' = 1 ∧
  (∀ l, l ≠ 0 → mods w' l = mods demo_world l).
Proof.
  apply (loadModel_success (demo_lib demo_synset [demo_scores]) "vgg16" true demo_world
           tt demo_weights ∅ [] [] []); reflexivity.
Defined.

(** ** init *)

Lemma init_raised_last {F symbol Module} (lib : @Library F symbol Module)
    modelname gpu_flag :
  emits (init lib modelname gpu_flag) (raised_last (loc * list string)).
Proof. unfold init. compose raised_last_closed; apply raised_last_lib_call. Qed.

(** X6. [init] has no error handling of its own either: it raises an
    exception exactly when a call it made raised that exception, and
    that call is the last one it made. *)
Theorem init_propagates {F symbol Module} (lib : @Library F symbol Module)
    modelname gpu_flag :
  propagates (init lib modelname gpu_flag).
Proof. apply raised_last_propagates, init_raised_last. Qed.

(** X7. [init] loads the model first and the labels second. When
    [loadModel] raises, [init] raises the same error and the label file
    is not opened; otherwise the label file is opened next, and when it
    opens [init] returns the module of [loadModel] with the labels of
    the file, which are the same for every model name and flag. *)
Theorem init_model_then_labels {F symbol Module} (lib : @Library F symbol Module)
    modelname gpu_flag (w : world) :
  (∀ e, (loadModel lib modelname gpu_flag w).1 = Raise e →
        init lib modelname gpu_flag w = (Raise e, (loadModel lib modelname gpu_flag w).2)) ∧
  (∀ model, (loadModel lib modelname gpu_flag w).1 = Ok model →
        new_calls w (init lib modelname gpu_flag w).2
        = new_calls w (loadModel lib modelname gpu_flag w).2
          ++ [Event (COpen "synset.txt" "r") (outcome (py_open lib "synset.txt" "r"))]) ∧
  (∀ model contents,
        (loadModel lib modelname gpu_flag w).1 = Ok model →
        py_open lib "synset.txt" "r" = Ok contents →
        (init lib modelname gpu_flag w).1 = Ok (model, rstrip <$> readlines contents)).
Proof.
  destruct (loadModel_raised_last lib modelname gpu_flag w) as (evs & Hcalls & _).
  unfold init, mbind, M_bind, bind.
  destruct (loadModel lib modelname gpu_flag w) as [[model|e] w1]; cbn [fst snd] in *.
  - split_and!; [done | |].
    + intros _ _. rewrite loadCategories_run.
      destruct (py_open lib "synset.txt" "r"); unfold new_calls, log, ret;
        cbn [calls snd]; rewrite Hcalls, <- app_assoc, !drop_app_length; done.
    + intros ? contents [= <-] Hopen. by rewrite loadCategories_run, Hopen.
  - split_and!; [by intros ? [= ->] | done | done].
Qed.

Lemma init_model_then_labels_witness :
  let lib := demo_lib demo_synset [demo_scores] in
  (init lib "vgg16" false demo_world).1 = Ok (0, ["cat"; "dog"; "fox"]) ∧
  init lib "resnet-152" false demo_world
  = (Raise (PyErr "MXNetError" "cannot open the checkpoint"),
     (loadModel lib "resnet-152" false demo_world).2).
Proof.
  intros lib. split.
  - destruct (init_model_then_labels lib "vgg16" false demo_world) as (_ & _ & Hok).
    apply (Hok 0 demo_synset); reflexivity.
  - destruct (init_model_then_labels lib "resnet-152" false demo_world) as (Hfail & _).
    apply Hfail. reflexivity.
Defined.

(** ** predict: counts, missing labels and files that do not decode *)

Lemma slice_to_neg {A} (l : list A) n :
  (n < 0)%Z → slice_to l n = take (length l - Z.to_nat (- n)) l.
Proof.
  intros Hn. unfold slice_to.
  destruct (Z.ltb_spec n 0) as [_|?]; [|lia]. f_equal. lia.
Qed.

Lemma argsort_length {F symbol Module} (lib : @Library F symbol Module) prob k :
  argsort_permutes lib → shape prob = [k] →
  length (reverse (np_argsort lib prob)) = k.
Proof.
  intros Hperm Hshape.
  by rewrite length_reverse, (Permutation_length (Hperm prob k Hshape)), length_seq.
Qed.

(** X8. A negative count is counted from the end, as a slice does: for
    a vector of [k] entries and [n < 0], [predict] returns the ranking
    without its last [-n] entries, [k + n] pairs, and none when [-n] is
    [k] or more. *)
Theorem predict_negative_count {F symbol Module} (lib : @Library F symbol Module)
    filename model categories n (w : world) prob k w1 :
  argsort_permutes lib →
  forward_pass lib filename model w = (Ok prob, w1) →
  shape prob = [k] →
  (n < 0)%Z →
  k ≤ length categories →
  ∃ topn,
    (predict lib filename model categories n w).1 = Ok topn ∧
    length topn = k - Z.to_nat (- n) ∧
    Forall2 (paired prob categories)
      (take (k - Z.to_nat (- n)) (reverse (np_argsort lib prob))) topn.
Proof.
  intros Hperm Hrun Hshape Hn Hk.
  pose proof (argsort_length lib prob k Hperm Hshape) as Hlen.
  destruct (top_n_run lib prob k categories n w1 Hshape)
    as (topn & w2 & Hsel & Hpairs & _).
  { apply Forall_forall. intros i Hi.
    pose proof (argsort_in_range lib prob k n i Hperm Hshape Hi). lia. }
  rewrite slice_to_neg, Hlen in Hpairs by done.
  exists topn. split_and!; [| | done].
  - by rewrite (predict_after_forward_pass lib filename model categories n w prob w1),
      Hsel.
  - rewrite <- (Forall2_length _ _ _ Hpairs), length_take, Hlen. lia.
Qed.

Lemma predict_negative_count_witness :
  let lib := demo_lib demo_synset [demo_scores] in
  ∃ topn,
    (predict lib "violin.jpg" 0 ["cat"; "dog"; "fox"] (-1) demo_world).1 = Ok topn ∧
    length topn = 2.
Proof.
  intros lib.
  destruct (predict_negative_count lib "violin.jpg" 0 ["cat"; "dog"; "fox"] (-1)
              demo_world (np_squeeze demo_scores) 3
              (forward_pass lib "violin.jpg" 0 demo_world).2)
    as (topn & Hrun & Hlen & _).
  - apply demo_argsort_permutes.
  - apply demo_forward_pass.
  - reflexivity.
  - lia.
  - simpl. lia.
  - exists topn. split; [done|]. rewrite Hlen. reflexivity.
Defined.

(** A loop stops with the exception of the first iteration that
    raises. *)
Lemma for_each_raise {F Module A S} (Q P : A → Prop) `{!∀ x, Decision (P x)}
    (body : A → S → @M F Module S) e l s (w : world) :
  (∀ x s w, Q x → P x → ∃ s' w', body x s w = (Ok s', w')) →
  (∀ x s w, Q x → ¬ P x → (body x s w).1 = Raise e) →
  Forall Q l →
  Exists (fun x => ¬ P x) l →
  (for_each l body s w).1 = Raise e.
Proof.
  intros Hok Hraise Hl. revert s w.
  induction Hl as [|x l HQ _ IH]; intros s w Hex; [by apply Exists_nil in Hex|].
  cbn [for_each]. unfold mbind, M_bind, bind.
  destruct (decide (P x)) as [HP|HP].
  - destruct (Hok x s w HQ HP) as (s' & w' & ->).
    apply IH. by apply Exists_cons in Hex as [?|?].
  - specialize (Hraise x s w HQ HP).
    by destruct (body x s w) as [[?|?] ?]; simplify_eq/=.
Qed.

(** X9. When a selected index has no label, the categories being
    fewer than the entries of the vector, [predict] raises
    [IndexError] and returns no pair at all. *)
Theorem predict_missing_label {F symbol Module} (lib : @Library F symbol Module)
    filename model categories n (w : world) prob k w1 i :
  argsort_permutes lib →
  forward_pass lib filename model w = (Ok prob, w1) →
  shape prob = [k] →
  i ∈ slice_to (reverse (np_argsort lib prob)) n →
  length categories ≤ i →
  (predict lib filename model categories n w).1 = Raise IndexError.
Proof.
  intros Hperm Hrun Hshape Hi Hmissing.
  rewrite (predict_after_forward_pass lib filename model categories n w prob w1 Hrun).
  unfold top_n.
  apply (for_each_raise (fun j => j < k) (fun j => j < length categories)).
  - intros j s w0 Hjk Hj.
    destruct (lookup_lt_is_Some_2 categories j Hj) as [c Hc].
    unfold_monad. rewrite (nd_getitem_vector prob k j Hshape Hjk).
    unfold list_getitem. rewrite Hc. unfold_monad. by eexists _, _.
  - intros j s w0 Hjk Hj.
    unfold_monad. rewrite (nd_getitem_vector prob k j Hshape Hjk).
    unfold list_getitem. rewrite lookup_ge_None_2 by lia. by unfold_monad.
  - apply Forall_forall. intros j Hj.
    by apply (argsort_in_range lib prob k n j Hperm Hshape).
  - apply Exists_exists. exists i. split; [done | lia].
Qed.

Lemma predict_missing_label_witness :
  let lib := demo_lib demo_synset [demo_scores] in
  (predict lib "violin.jpg" 0 ["cat"; "dog"] 2 demo_world).1 = Raise IndexError.
Proof.
  intros lib.
  apply (predict_missing_label lib "violin.jpg" 0 ["cat"; "dog"] 2 demo_world
           (np_squeeze demo_scores) 3 (forward_pass lib "violin.jpg" 0 demo_world).2 2).
  - apply demo_argsort_permutes.
  - apply demo_forward_pass.
  - reflexivity.
  - change (np_argsort lib) with demo_argsort. rewrite demo_ranking.
    change (slice_to [1; 2; 0] 2) with [1; 2].
    apply list_elem_of_further, list_elem_of_here.
  - simpl. lia.
Defined.

(** X10. A file that [cv2.imread] cannot decode: [imread] returns
    [None] without raising, [cvtColor] rejects it, and both
    [prepareNDArray] and [predict] raise that error after these two
    calls, with the heap, the model included, left as it was. *)
Theorem predict_undecodable {F symbol Module} (lib : @Library F symbol Module)
    filename model categories n (w : world) :
  cv2_imread lib filename = None →
  let w' := log (Event CCvtColor (Some cv2_error)) (log (Event (CImread filename) None) w) in
  prepareNDArray lib filename w = (Raise cv2_error, w') ∧
  predict lib filename model categories n w = (Raise cv2_error, w') ∧
  same_heap w w'.
Proof.
  intros Himread w'. subst w'. split_and!.
  - unfold prepareNDArray. unfold_monad. by rewrite Himread.
  - unfold predict, forward_pass, prepareNDArray. unfold_monad. by rewrite Himread.
  - done.
Qed.

Lemma predict_undecodable_witness :
  let lib := demo_lib demo_synset [demo_scores] in
  let w' := log (Event CCvtColor (Some cv2_error))
              (log (Event (CImread "missing.jpg") None) demo_world) in
  prepareNDArray lib "missing.jpg" demo_world = (Raise cv2_error, w') ∧
  predict lib "missing.jpg" 0 ["cat"] 5 demo_world = (Raise cv2_error, w') ∧
  same_heap demo_world w'.
Proof.
  apply (predict_undecodable (demo_lib demo_synset [demo_scores]) "missing.jpg" 0
           ["cat"] 5 demo_world).
  reflexivity.
Defined.

(** ** predict: what it changes, and how its results nest *)

Lemma same_heap_log {F Module} (w : @world F Module) ev : same_heap w (log ev w).
Proof. done. Qed.

Lemma same_heap_trans {F Module} (w1 w2 w3 : @world F Module) :
  same_heap w1 w2 → same_heap w2 w3 → same_heap w1 w3.
Proof. unfold same_heap. intros (-> & -> & -> & ->) (-> & -> & -> & ->). done. Qed.

Lemma for_each_same_heap {F Module A S} (body : A → S → @M F Module S) l s (w : world) :
  (∀ x s w, same_heap w (body x s w).2) → same_heap w (for_each l body s w).2.
Proof.
  intros Hbody. revert s w. induction l as [|x l IH]; intros s w; [done|].
  cbn [for_each]. unfold mbind, M_bind, bind.
  pose proof (Hbody x s w) as Hx. destruct (body x s w) as [[s'|e] w']; cbn [snd] in *.
  - by apply (same_heap_trans w w').
  - done.
Qed.

Lemma top_n_same_heap {F symbol Module} (lib : @Library F symbol Module)
    prob categories n (w : world) :
  same_heap w (top_n lib prob categories n w).2.
Proof.
  unfold top_n. apply for_each_same_heap. intros i s w0. unfold_monad.
  destruct (nd_getitem prob i); [|done]. by destruct (list_getitem categories i).
Qed.

(** X11. [predict] changes nothing but the model it is given: the
    dictionaries and every other module are as before, and nothing is
    allocated. *)
Theorem predict_frame {F symbol Module} (lib : @Library F symbol Module)
    filename model categories n (w : world) :
  let w' := (predict lib filename model categories n w).2 in
  dicts w' = dicts w ∧
  next_dict w' = next_dict w ∧
  next_mod w' = next_mod w ∧
  (∀ l, l ≠ model → mods w' l = mods w l).
Proof.
  destruct (prepareNDArray_heap lib filename w) as (Hd & Hnd & Hm & Hnm).
  unfold predict, forward_pass. unfold_monad.
  destruct (prepareNDArray lib filename w) as [[array|e] w1] eqn:Hprep;
    cbn [snd] in *; unfold_monad; [|by rewrite Hm].
  rewrite Hm.
  destruct (Module_forward lib (mods w model) [array]) as [m'|e] eqn:Hforward;
    unfold_monad; [|done].
  assert (Hother : ∀ l, l ≠ model → upd (mods w) model m' l = mods w l)
    by (intros l Hl; by rewrite upd_ne).
  repeat step; try done.
  match goal with
  | |- context [top_n lib ?p categories n ?w2] =>
      by destruct (top_n_same_heap lib p categories n w2) as (-> & -> & -> & ->)
  end.
Qed.

Lemma for_each_app {F Module A S} (body : A → S → @M F Module S) l1 l2 s (w : world) :
  for_each (l1 ++ l2) body s w
  = (for_each l1 body s ≫= fun s' => for_each l2 body s') w.
Proof.
  revert s w. induction l1 as [|x l1 IH]; intros s w; [done|].
  cbn [app for_each]. unfold mbind, M_bind, bind in *.
  destruct (body x s w) as [[s'|e] w']; [apply IH | done].
Qed.

Lemma for_each_appends {F Module A B} (body : A → list B → @M F Module (list B))
    l acc (w : world) r w' :
  (∀ x acc w r w', body x acc w = (Ok r, w') → ∃ y, r = acc ++ [y]) →
  for_each l body acc w = (Ok r, w') →
  ∃ ys, r = acc ++ ys ∧ length ys = length l.
Proof.
  intros Hbody. revert acc w. induction l as [|x l IH]; intros acc w.
  - intros [= <- <-]. exists []. by rewrite app_nil_r.
  - cbn [for_each]. unfold mbind, M_bind, bind.
    destruct (body x acc w) as [[s'|e] w1] eqn:Hx; [|done].
    destruct (Hbody x acc w s' w1 Hx) as [y ->]. intros Hrest.
    destruct (IH _ _ Hrest) as (ys & -> & Hlen).
    exists (y :: ys). split; [by rewrite <- app_assoc | cbn [length]; by rewrite Hlen].
Qed.

(** X12. The results of [predict] nest: when a request for [n'] pairs
    succeeds, a request for fewer, [0 ≤ n ≤ n'], on the same file,
    model and categories succeeds too, with the first [n] of those
    pairs. *)
Theorem predict_prefix {F symbol Module} (lib : @Library F symbol Module)
    filename model categories n n' (w : world) topn' :
  (0 ≤ n ≤ n')%Z →
  (predict lib filename model categories n' w).1 = Ok topn' →
  (predict lib filename model categories n w).1 = Ok (take (Z.to_nat n) topn').
Proof.
  intros Hn. unfold predict, mbind, M_bind, bind.
  destruct (forward_pass lib filename model w) as [[prob|e] w1]; [|done].
  unfold top_n. rewrite !slice_to_nonneg by lia.
  set (ranking := reverse (np_argsort lib prob)).
  set (body := fun (i : nat) (topn : list (F * string)) => _).
  assert (Hbody : ∀ x acc w r w', body x acc w = (Ok r, w') → ∃ y, r = acc ++ [y]).
  { intros i acc w0 r w'. subst body. unfold_monad.
    destruct (nd_getitem prob i) as [p|?]; [|done].
    destruct (list_getitem categories i) as [c|?]; [|done].
    intros [= <- _]. by eexists. }
  assert (Hsplit : take (Z.to_nat n') ranking
                   = take (Z.to_nat n) ranking ++ drop (Z.to_nat n) (take (Z.to_nat n') ranking)).
  { rewrite <- (take_drop (Z.to_nat n) (take (Z.to_nat n') ranking)) at 1.
    rewrite take_take. do 2 f_equal. lia. }
  rewrite Hsplit, for_each_app. unfold mbind, M_bind, bind.
  destruct (for_each (take (Z.to_nat n) ranking) body [] w1) as [[r1|e] w2] eqn:H1;
    [|done].
  destruct (for_each_appends body _ _ _ _ _ Hbody H1) as (ys1 & -> & Hlen1).
  cbn [fst app]. intros H2.
  destruct (for_each (drop (Z.to_nat n) (take (Z.to_nat n') ranking)) body ys1 w2)
    as [[r2|e] w3] eqn:Hrest; [|done].
  cbn [fst] in H2. injection H2 as ->.
  destruct (for_each_appends body _ _ _ _ _ Hbody Hrest) as (ys2 & -> & Hlen2).
  f_equal. rewrite length_take in Hlen1. rewrite length_drop, length_take in Hlen2.
  destruct (Nat.le_gt_cases (Z.to_nat n) (length ranking)).
  - by rewrite take_app_length' by lia.
  - destruct ys2; [|simpl in Hlen2; lia]. rewrite app_nil_r. by rewrite take_ge by lia.
Qed.

Lemma predict_prefix_witness :
  let lib := demo_lib demo_synset [demo_scores] in
  (predict lib "violin.jpg" 0 ["cat"; "dog"; "fox"] 1 demo_world).1
  = Ok (take (Z.to_nat 1) [(70%Z, "dog"); (20%Z, "fox"); (10%Z, "cat")]).
Proof.
  apply (predict_prefix (demo_lib demo_synset [demo_scores]) "violin.jpg" 0
           ["cat"; "dog"; "fox"] 1 3 demo_world).
  - lia.
  - reflexivity.
Defined.

(** ** init followed by predict *)

(** X13. The categories that [init] returns serve [predict] on the
    model it returns: when the output of the model is one row of [k]
    probabilities, [k] other than 1, the label file has at least [k]
    lines and the count [n] is not negative, [predict] returns
    [min n k] pairs, and the label in each pair is the stripped line of
    the file whose number, from 0, is the index of the probability it
    is paired with. *)
Theorem init_then_predict {F symbol Module} (lib : @Library F symbol Module)
    modelname gpu_flag filename n (w : world) model categories w1 contents
    array w2 m' outputs out0 k :
  argsort_permutes lib →
  init lib modelname gpu_flag w = (Ok (model, categories), w1) →
  py_open lib "synset.txt" "r" = Ok contents →
  prepareNDArray lib filename w1 = (Ok array, w2) →
  Module_forward lib (mods w1 model) [array] = Ok m' →
  Module_get_outputs lib m' = Ok outputs →
  outputs !! 0 = Some out0 →
  shape out0 = [1; k] →
  k ≠ 1 →
  k ≤ line_count contents →
  (0 ≤ n)%Z →
  ∃ topn lines,
    (predict lib filename model categories n w1).1 = Ok topn ∧
    length topn = Z.to_nat n `min` k ∧
    lines_of contents lines ∧
    Forall2 (fun i pc => ∃ line, lines !! i = Some line ∧
                                 pc = (at_index out0 [0; i], rstrip line))
      (take (Z.to_nat n) (reverse (np_argsort lib (np_squeeze out0)))) topn.
Proof.
  intros Hperm Hinit Hopen Hprep Hforward Hget Hout0 Hraw Hk1 Hk Hn.
  destruct (forward_pass_run lib filename model w1 array w2 m' outputs out0)
    as [w3 Hrun]; [done..|].
  destruct (np_squeeze_row out0 k Hraw Hk1) as [Hshape Hat].
  set (prob := np_squeeze out0) in *.
  assert (Hcats : categories = rstrip <$> readlines contents).
  { revert Hinit. unfold init, mbind, M_bind, bind.
    destruct (loadModel lib modelname gpu_flag w) as [[m|e] w0]; [|done].
    rewrite loadCategories_run, Hopen. unfold mret, M_ret, ret. by intros [= _ <- _]. }
  pose proof (argsort_length lib prob k Hperm Hshape) as Hlen.
  destruct (top_n_run lib prob k categories n w3 Hshape)
    as (topn & w4 & Hsel & Hpairs & _).
  { apply Forall_forall. intros i Hi.
    pose proof (argsort_in_range lib prob k n i Hperm Hshape Hi).
    rewrite Hcats, length_fmap, readlines_length. lia. }
  rewrite slice_to_nonneg in Hpairs by done.
  exists topn, (readlines contents). split_and!.
  - by rewrite (predict_after_forward_pass lib filename model categories n w1 prob w3),
      Hsel.
  - by rewrite <- (Forall2_length _ _ _ Hpairs), length_take, Hlen.
  - apply readlines_lines_of.
  - eapply Forall2_impl; [exact Hpairs|].
    intros i [p c] [Hp Hc]. cbn [fst snd] in *. rewrite Hcats, list_lookup_fmap in Hc.
    destruct (readlines contents !! i) as [line|]; [|done].
    injection Hc as <-. exists line. by rewrite Hp, Hat.
Qed.

Lemma init_then_predict_witness :
  let lib := demo_lib demo_synset [demo_scores] in
  ∃ topn,
    (predict lib "violin.jpg" 0 ["cat"; "dog"; "fox"] 2
       (init lib "vgg16" false demo_world).2).1 = Ok topn ∧
    length topn = 2.
Proof.
  intros lib.
  destruct (prepareNDArray lib "violin.jpg" (init lib "vgg16" false demo_world).2)
    as [[array|e] w2] eqn:Hprep; [|vm_compute in Hprep; discriminate Hprep].
  destruct (init_then_predict lib "vgg16" false "violin.jpg" 2 demo_world 0
              ["cat"; "dog"; "fox"] (init lib "vgg16" false demo_world).2 demo_synset
              array w2 [demo_scores] [demo_scores] demo_scores 3)
    as (topn & lines & Hrun & Hlen & _).
  - apply demo_argsort_permutes.
  - vm_compute. reflexivity.
  - reflexivity.
  - exact Hprep.
  - reflexivity.
  - reflexivity.
  - reflexivity.
  - reflexivity.
  - lia.
  - vm_compute. lia.
  - lia.
  - exists topn. split; [done|]. rewrite Hlen. reflexivity.
Defined.

(** ** The names of the layers *)

Lemma elem_of_map_keys {V} (d : gmap string V) name :
  name ∈ (map_to_list d).*1 ↔ is_Some (d !! name).
Proof.
  rewrite list_elem_of_fmap. split.
  - intros ([k v] & -> & Hkv). apply elem_of_map_to_list in Hkv. by exists v.
  - intros [v Hv]. exists (name, v). split; [done|]. by apply elem_of_map_to_list.
Qed.

(** X14. The cell that prints the layers of a model: whatever the
    order in which the dictionary lists its keys, the list printed
    holds the name of every parameter of the dictionary exactly once,
    in ascending order, and is the same for every such order. *)
Theorem layer_names_sorted {V} (d : gmap string V) (keys : list string) :
  keys ≡ₚ (map_to_list d).*1 →
  Sorted String.le (layer_names keys) ∧
  NoDup (layer_names keys) ∧
  (∀ name, name ∈ layer_names keys ↔ is_Some (d !! name)) ∧
  length (layer_names keys) = size d ∧
  (∀ keys', keys' ≡ₚ (map_to_list d).*1 → layer_names keys' = layer_names keys).
Proof.
  intros Hkeys.
  assert (Hlayers : ∀ ks, layer_names ks = merge_sort String.le ks).
  { intros ks. unfold layer_names. cbv zeta.
    rewrite (fold_left_append (fun layer => layer) ks []). by rewrite list_fmap_id. }
  assert (Hperm : layer_names keys ≡ₚ (map_to_list d).*1).
  { by rewrite Hlayers, merge_sort_Permutation. }
  split_and!.
  - rewrite Hlayers. apply (Sorted_merge_sort String.le).
  - rewrite Hperm. apply NoDup_fst_map_to_list.
  - intros name. rewrite Hperm. apply elem_of_map_keys.
  - rewrite (Permutation_length Hperm), length_fmap. apply length_map_to_list.
  - intros keys' Hkeys'. rewrite !Hlayers.
    apply (Sorted_unique String.le); [apply (Sorted_merge_sort String.le)..|].
    by rewrite !merge_sort_Permutation, Hkeys, Hkeys'.
Qed.

Lemma layer_names_sorted_witness :
  let d : gmap string nat := {[ "fc8_weight" := 1; "conv1_1_weight" := 2; "fc8_bias" := 3 ]} in
  let keys := (map_to_list d).*1 in
  Sorted String.le (layer_names keys) ∧
  NoDup (layer_names keys) ∧
  (∀ name, name ∈ layer_names keys ↔ is_Some (d !! name)) ∧
  length (layer_names keys) = size d ∧
  (∀ keys', keys' ≡ₚ (map_to_list d).*1 → layer_names keys' = layer_names keys).
Proof.
  intros d keys. apply (layer_names_sorted d keys). reflexivity.
Defined.
